(** * Spectrum analyser for the AD9361 over libiio (backup241018.c)

    A shallow embedding of the streaming / spectral-analysis pipeline of
    [main] and of its helpers, followed by the properties of the design
    document that can be stated over it.

    Numeric model.  The constants of the program (the frequencies of
    [MHZ] and [GHZ], the [float] angular frequencies of the two tones) are
    computed in binary floating point, rounding included.  The signal
    path (window, transform, magnitudes, tones) is read over the real
    numbers ([R]): there every arithmetic operation and every call into
    libm ([cos], [sin], [log10], [cabs]) is the mathematical function.
    The one IEEE special value the program can produce,
    [log10(0) = -inf], is kept as a constructor of [dbl].  Integers are [Z]
    with the wrap-around of their C type written out.

    External world.  libiio, the signal and the device are an oracle:
    [init_env] gives the outcome of every call made during set-up and a
    [cycle_env] gives, per loop iteration, what the transport returned and
    where (if at all) SIGINT arrived.  The process is a function from that
    oracle to a trace of events. *)

From Stdlib Require Import Reals Lra Lia ZArith QArith Qround Qreals List Bool String.
From Stdlib Require Import Ascii DecimalString DecimalZ DecimalPos.
From Stdlib Require Lqa.
From stdpp Require Import base decidable list.
Import ListNotations.

Close Scope Q_scope.
Local Open Scope Z_scope.

(* ===================================================================== *)
(** ** Numbers *)
(* ===================================================================== *)

(** [double complex] as a pair of reals. *)
Record complex := Cplx { re : R; im : R }.

Definition C0 : complex := Cplx 0 0.
(** The macro [I] of <complex.h>. *)
Definition Ci : complex := Cplx 0 1.
Definition of_real (x : R) : complex := Cplx x 0.

Definition cadd (a b : complex) : complex :=
  Cplx (re a + re b) (im a + im b).
Definition cmul (a b : complex) : complex :=
  Cplx (re a * re b - im a * im b) (re a * im b + im a * re b).

(** [cabs]. *)
Definition cabs (z : complex) : R := sqrt (re z * re z + im z * im z).

(** A [double] that may be one of the IEEE special values. *)
Inductive dbl :=
| Fin (r : R)
| NegInf
| PosInf
| NaN.

(** [log10] of libm: a pole at zero, a domain error below it. *)
Definition log10 (x : R) : dbl :=
  if Req_dec_T x 0 then NegInf
  else if Rlt_dec 0 x then Fin (ln x / ln 10)
  else NaN.

(** [k * x] for a finite [k] and a possibly special [x]. *)
Definition dbl_scale (k : R) (x : dbl) : dbl :=
  match x with
  | Fin r => Fin (k * r)
  | NegInf => if Rlt_dec 0 k then NegInf else if Rlt_dec k 0 then PosInf else NaN
  | PosInf => if Rlt_dec 0 k then PosInf else if Rlt_dec k 0 then NegInf else NaN
  | NaN => NaN
  end.

(** Conversion of a [double] to an integer type truncates toward zero. *)
Definition Rtrunc (x : R) : Z :=
  if Rle_dec 0 x then Int_part x else - Int_part (- x).

(** Two's-complement wrap-around of a 16-bit signed integer. *)
Definition wrap16 (z : Z) : Z := (z + 32768) mod 65536 - 32768.

(** [short v = <double expression>]. *)
Definition to_short (x : R) : Z := wrap16 (Rtrunc x).

(** Wrap-around of [size_t] (64 bits, unsigned). *)
Definition wrap_size_t (z : Z) : Z := z mod 2 ^ 64.

(** A fraction with its fractional part dropped. *)
Definition Qtrunc (q : Q) : Z := Z.quot (Qnum q) (Zpos (Qden q)).

(** Binary floating point.  A finite [double] or [float] is a fraction;
    [fp_round prec q] is the number with [prec] significant bits nearest
    to [q], a tie going to the even significand (the rounding of IEEE 754
    in force in the program).  With [e] the exponent of [q], that is
    [2^e <= |q| < 2^(e+1)], the result is [m * 2^(e - prec + 1)] for the
    integer [m] nearest to [|q| / 2^(e - prec + 1)].  The range of the
    exponent (overflow, subnormal numbers) is not represented. *)
Definition fp_round (prec : Z) (q : Q) : Q :=
  let n := Qnum q in
  let d := Zpos (Qden q) in
  if n =? 0 then 0%Q else
  let a := Z.abs n in
  (* |q| * 2^s as a fraction of two positive integers *)
  let num (s : Z) := a * 2 ^ Z.max 0 s in
  let den (s : Z) := d * 2 ^ Z.max 0 (- s) in
  let e0 := Z.log2 a - Z.log2 d in
  let e := if num (- e0) <? den (- e0) then e0 - 1 else e0 in
  let s := prec - 1 - e in
  let fl := num s / den s in
  let r := num s mod den s in
  let m := if 2 * r <? den s then fl
           else if den s <? 2 * r then fl + 1
           else if Z.even fl then fl else fl + 1 in
  Qred (Qmake (Z.sgn n * m * 2 ^ Z.max 0 (- s)) (Z.to_pos (2 ^ Z.max 0 s))).

(** Conversion to [double] (53 significant bits) and to [float] (24). *)
Definition to_double (q : Q) : Q := fp_round 53 q.
Definition to_float (q : Q) : Q := fp_round 24 q.

(** The cast [(long long) x] of a [double]: the fraction is dropped; a
    value that does not fit in 64 bits is undefined in C, and the
    conversion instruction of x86-64, for which the program is built,
    gives the smallest [long long]. *)
Definition to_long_long (q : Q) : Z :=
  let z := Qtrunc q in
  if (- 2 ^ 63 <=? z) && (z <? 2 ^ 63) then z else - 2 ^ 63.

(** [#define MHZ(x) ((long long)(x*1000000.0 + .5))]: the argument is
    converted to [double], the product and the sum are [double]
    operations. *)
Definition MHZ (x : Q) : Z :=
  to_long_long (to_double (to_double (to_double x * 1000000) + 0.5))%Q.
(** [#define GHZ(x) ((long long)(x*1000000000.0 + .5))] *)
Definition GHZ (x : Q) : Z :=
  to_long_long (to_double (to_double (to_double x * 1000000000) + 0.5))%Q.

Definition FREQ1 : Z := MHZ 8.
Definition FREQ2 : Z := MHZ 4.

(** [# define M_PI 3.14159265358979323846] of <math.h>, a [double]. *)
Definition M_PI : Q := to_double 3.14159265358979323846%Q.

(* ===================================================================== *)
(** ** Window Generator *)
(* ===================================================================== *)

(** [static double win_hanning(int j, int n)] *)
Definition win_hanning (j n : Z) : R :=
  let a := (2 * PI / IZR (n - 1))%R in
  let w := (0.5 * (1 - cos (a * IZR j)))%R in
  w.

(** [for (cnt = 0; cnt < fft_size; cnt++) win[cnt] = win_hanning(cnt, fft_size);] *)
Definition window_loop (fft_size : nat) (win : list R) : list R :=
  fold_left
    (fun (win : list R) (cnt : nat) =>
       <[cnt := win_hanning (Z.of_nat cnt) (Z.of_nat fft_size)]> win)
    (seq 0 fft_size) win.


(* ===================================================================== *)
(** ** Spectral Engine *)
(* ===================================================================== *)

(** One received sample: the two [int16_t] read at [p_dat]. *)
Definition sample : Type := (Z * Z)%type.

(** [(i + I*q)] with [i], [q] promoted to [double]. *)
Definition iq (s : sample) : complex :=
  cadd (of_real (IZR (fst s))) (cmul Ci (of_real (IZR (snd s)))).

(** Body of the loop over the received block:
    [if (cnt < fft_size) { in[cnt] = (i + I*q)*win[cnt]; cnt++; }] *)
Definition fill_step (fft_size : nat) (win : list R)
    (acc : list complex * nat) (s : sample) : list complex * nat :=
  let '(inb, cnt) := acc in
  if (cnt <? fft_size)%nat
  then (<[cnt := cmul (iq s) (of_real (nth cnt win 0%R))]> inb, S cnt)
  else (inb, cnt).

(** [cnt = 0; for (p_dat = first; p_dat < p_end; p_dat += p_inc) ...] *)
Definition fill_in (fft_size : nat) (win : list R) (blk : list sample)
    (inb : list complex) : list complex :=
  fst (fold_left (fill_step fft_size win) blk (inb, 0%nat)).

(** The plan made once by [fftw_plan_dft_1d(fft_size, in, out, FFTW_FORWARD,
    FFTW_ESTIMATE)]: a length and the sign of the exponent. *)
Record fftw_plan := { plan_n : nat; plan_sign : Z }.

Definition FFTW_FORWARD : Z := -1.

Definition fftw_plan_dft_1d (n : nat) (sign : Z) : fftw_plan :=
  {| plan_n := n; plan_sign := sign |}.

Definition cis (theta : R) : complex := Cplx (cos theta) (sin theta).

Definition csum (l : list complex) : complex := fold_right cadd C0 l.

(** Modelled from the spec: the discrete Fourier transform applied by
    [fftw_execute]; FFTW is a library outside the sources.  Bin [k] of a
    transform of length [n] is the unnormalised sum
    [sum_j x[j] * exp(sign * 2 pi i * j * k / n)]. *)
Definition dft_bin (sign : Z) (n : nat) (x : list complex) (k : nat) : complex :=
  csum (map (fun j : nat =>
               cmul (nth j x C0)
                    (cis (IZR sign * (2 * PI * INR j * INR k / INR n))%R))
            (seq 0 n)).

(** [fftw_execute(plan)]: reads [in], gives the new content of [out]. *)
Definition fftw_execute (p : fftw_plan) (inb : list complex) : list complex :=
  map (dft_bin (plan_sign p) (plan_n p) inb) (seq 0 (plan_n p)).

(** One line of fft.csv. *)
Definition bin : Type := (R * dbl)%type.

(** [for (cnt = 0; cnt < fft_size; cnt++) fprintf(fp3, "%lf %lf\n",
      ((double)cnt/(double)fft_size)*(double)rxcfg.fs_hz,
      20*log10(cabs(out[cnt])));] *)
Definition spectrum (fft_size : nat) (rx_fs_hz : Z) (outb : list complex)
    : list bin :=
  map (fun cnt : nat =>
         ((IZR (Z.of_nat cnt) / IZR (Z.of_nat fft_size) * IZR rx_fs_hz)%R,
          dbl_scale 20 (log10 (cabs (nth cnt outb C0)))))
      (seq 0 fft_size).

(* ===================================================================== *)
(** ** Waveform Synthesizer *)
(* ===================================================================== *)

(** [float x = 2.0 * M_PI * f;] for a [long long] [f]: the product
    [2.0 * M_PI] and its product with [f], converted to [double], are
    [double] operations; the initialisation narrows the result to
    [float]. *)
Definition angular_frequency (f : Z) : Q :=
  to_float (to_double (to_double (2 * M_PI) * to_double (inject_Z f)))%Q.

(** [float freq1 = 2.0 * M_PI * FREQ1;] *)
Definition freq1 : R := Q2R (angular_frequency FREQ1).
(** [float freq2 = 2.0 * M_PI * FREQ2;] *)
Definition freq2 : R := Q2R (angular_frequency FREQ2).
(** [double ampl = 128;] *)
Definition ampl : R := 128%R.

(** [short ipart = ampl * cos(freq1 * i) + ampl * cos(freq2 * i);]
    [short qpart = ampl * sin(freq1 * i) + ampl * sin(freq2 * i);]
    In [freq1 * i] the [float] is promoted to [double], which keeps its
    value. *)
Definition synth_sample (i : R) : sample :=
  let ipart := to_short (ampl * cos (freq1 * i) + ampl * cos (freq2 * i))%R in
  let qpart := to_short (ampl * sin (freq1 * i) + ampl * sin (freq2 * i))%R in
  (ipart, qpart).

(** The loop over the slots of the TX buffer.  Each slot is overwritten by
    the sample synthesized at the current [i], then [i += 1. / fs_hz].  The
    result pairs every written sample with the [i] it was computed at. *)
Fixpoint tx_loop (tx_fs_hz : Z) (slots : list sample) (i : R)
    : list (R * sample) :=
  match slots with
  | [] => []
  | _ :: rest =>
      (i, synth_sample i) :: tx_loop tx_fs_hz rest (i + 1 / IZR tx_fs_hz)%R
  end.

(* ===================================================================== *)
(** ** The process: resources, events, the outside world *)
(* ===================================================================== *)

(** [enum iodev { RX, TX };] *)
Inductive iodev := RX | TX.

(** [struct stream_cfg] *)
Record stream_cfg := {
  bw_hz : Z;        (* Analog bandwidth in Hz *)
  fs_hz : Z;        (* Baseband sample rate in Hz *)
  lo_hz : Z;        (* Local oscillator frequency in Hz *)
  rfport : string   (* Port name *)
}.

Inductive file := OutputCsv | InputCsv | FftCsv.

(** What the process acquires and has to give back. *)
Inductive handle :=
| Ctx                          (* iio_context *)
| Chan (d : iodev) (q : bool)  (* rx0_i, rx0_q, tx0_i, tx0_q once enabled *)
| Buf (d : iodev)              (* rxbuf, txbuf *)
| FftIn                        (* fftw_malloc'ed in *)
| FftOut                       (* fftw_malloc'ed out *)
| Plan                         (* fftw_plan *)
| WinMem                       (* malloc'ed win *)
| FileH (f : file).            (* fp1, fp2, fp3 *)

Inductive event :=
| Acquire (h : handle)
| Release (h : handle)
| Push (blk : list sample)       (* iio_buffer_push(txbuf) succeeded *)
| Refill (blk : list sample)     (* iio_buffer_refill(rxbuf) succeeded *)
| Publish (s : list bin)         (* the lines written to fft.csv *)
| Status (nrx ntx : Z)           (* the RX/TX totals printed *)
| Synth (ts : list R)            (* the times the tones were evaluated at *)
| Exit (code : Z)                (* exit(code) *)
| Abort                          (* abort() *)
| Fault.                         (* integer division by zero *)

#[global] Instance iodev_eq_dec : EqDecision iodev.
Proof. solve_decision. Defined.
#[global] Instance file_eq_dec : EqDecision file.
Proof. solve_decision. Defined.
#[global] Instance handle_eq_dec : EqDecision handle.
Proof. solve_decision. Defined.

(** The file-scope variables.  A pointer is modelled by whether it is
    non-NULL; [trace] is what the process has done so far. *)
Record world := {
  ctx : bool;
  rx0_i : bool;
  rx0_q : bool;
  tx0_i : bool;
  tx0_q : bool;
  rxbuf : bool;
  txbuf : bool;
  stop : bool;
  trace : list event
}.

Definition world0 : world :=
  {| ctx := false; rx0_i := false; rx0_q := false; tx0_i := false;
     tx0_q := false; rxbuf := false; txbuf := false; stop := false;
     trace := [] |}.

Definition with_trace (t : list event) (w : world) : world :=
  {| ctx := ctx w; rx0_i := rx0_i w; rx0_q := rx0_q w; tx0_i := tx0_i w;
     tx0_q := tx0_q w; rxbuf := rxbuf w; txbuf := txbuf w; stop := stop w;
     trace := t |}.
Definition with_ctx (b : bool) (w : world) : world :=
  {| ctx := b; rx0_i := rx0_i w; rx0_q := rx0_q w; tx0_i := tx0_i w;
     tx0_q := tx0_q w; rxbuf := rxbuf w; txbuf := txbuf w; stop := stop w;
     trace := trace w |}.
Definition with_chan (d : iodev) (q : bool) (b : bool) (w : world) : world :=
  {| ctx := ctx w;
     rx0_i := match d, q with RX, false => b | _, _ => rx0_i w end;
     rx0_q := match d, q with RX, true => b | _, _ => rx0_q w end;
     tx0_i := match d, q with TX, false => b | _, _ => tx0_i w end;
     tx0_q := match d, q with TX, true => b | _, _ => tx0_q w end;
     rxbuf := rxbuf w; txbuf := txbuf w; stop := stop w; trace := trace w |}.
Definition with_buf (d : iodev) (b : bool) (w : world) : world :=
  {| ctx := ctx w; rx0_i := rx0_i w; rx0_q := rx0_q w; tx0_i := tx0_i w;
     tx0_q := tx0_q w;
     rxbuf := match d with RX => b | TX => rxbuf w end;
     txbuf := match d with TX => b | RX => txbuf w end;
     stop := stop w; trace := trace w |}.
Definition with_stop (b : bool) (w : world) : world :=
  {| ctx := ctx w; rx0_i := rx0_i w; rx0_q := rx0_q w; tx0_i := tx0_i w;
     tx0_q := tx0_q w; rxbuf := rxbuf w; txbuf := txbuf w; stop := b;
     trace := trace w |}.

(** A step of the process either returns, or ends the process with its
    complete trace. *)
Inductive outcome (A : Type) :=
| Ret (a : A) (w : world)
| Halt (tr : list event).
Arguments Ret {A} a w.
Arguments Halt {A} tr.

Definition proc (A : Type) : Type := world -> outcome A.

Definition ret {A} (a : A) : proc A := fun w => Ret a w.
Definition bind {A B} (m : proc A) (k : A -> proc B) : proc B :=
  fun w => match m w with
           | Ret a w' => k a w'
           | Halt tr => Halt tr
           end.

Declare Scope proc_scope.
Delimit Scope proc_scope with proc.
Notation "x <- m ;; k" := (bind m (fun x => k))
  (at level 20, m at level 99, k at level 200, only parsing) : proc_scope.
Notation "m ;; k" := (bind m (fun _ => k))
  (at level 100, k at level 200, right associativity, only parsing)
  : proc_scope.
Local Open Scope proc_scope.

Definition emit (e : event) : proc unit :=
  fun w => Ret tt (with_trace (trace w ++ [e]) w).
Definition update (f : world -> world) : proc unit := fun w => Ret tt (f w).

(** [#define ASSERT(expr) { if (!(expr)) { ...; abort(); } }] *)
Definition ASSERT (expr : bool) : proc unit :=
  fun w => if expr then Ret tt w else Halt (trace w ++ [Abort]).

(** What [shutdown] destroys, in its order. *)
Definition releases (w : world) : list event :=
  (if rxbuf w then [Release (Buf RX)] else []) ++
  (if txbuf w then [Release (Buf TX)] else []) ++
  (if rx0_i w then [Release (Chan RX false)] else []) ++
  (if rx0_q w then [Release (Chan RX true)] else []) ++
  (if tx0_i w then [Release (Chan TX false)] else []) ++
  (if tx0_q w then [Release (Chan TX true)] else []) ++
  (if ctx w then [Release Ctx] else []).

(** [static void shutdown()]: cleanup and [exit(0)]; it does not return. *)
Definition shutdown {A} : proc A :=
  fun w => Halt (trace w ++ releases w ++ [Exit 0]).

(** [static void handle_sig(int sig) { ...; stop = true; }] *)
Definition handle_sig : proc unit := update (with_stop true).

(** [static void errchk(int v, const char* what)] *)
Definition errchk (v : Z) : proc unit :=
  if v <? 0 then shutdown else ret tt.

(** Outcome of the libiio calls made by one [cfg_ad9361_streaming_ch]. *)
Record cfg_env := {
  phy_chan_found : bool;   (* iio_device_find_channel in get_phy_chan *)
  rf_port_select_ret : Z;  (* iio_channel_attr_write *)
  rf_bandwidth_ret : Z;    (* iio_channel_attr_write_longlong *)
  sampling_frequency_ret : Z;
  lo_chan_found : bool;    (* iio_device_find_channel in get_lo_chan *)
  frequency_ret : Z
}.

(** Outcome of the two look-ups of [get_ad9361_stream_ch]. *)
Record chan_env := {
  by_voltage : bool;
  by_altvoltage : bool
}.

(** Everything the outside world decides before the loop starts. *)
Record init_env := {
  context_created : bool;     (* iio_create_network_context != NULL *)
  devices_count : Z;          (* iio_context_get_devices_count *)
  phy_dev_found : bool;       (* "ad9361-phy" *)
  tx_dev_found : bool;        (* "cf-ad9361-dds-core-lpc" *)
  rx_dev_found : bool;        (* "cf-ad9361-lpc" *)
  rx_cfg_env : cfg_env;
  tx_cfg_env : cfg_env;
  rx0_i_env : chan_env;
  rx0_q_env : chan_env;
  tx0_i_env : chan_env;
  tx0_q_env : chan_env;
  rxbuf_created : bool;       (* iio_device_create_buffer(rx, ...) != NULL *)
  txbuf_created : bool;
  tx_initial : nat -> sample;  (* content of the TX buffer as created *)
  in_initial : nat -> complex; (* content of in, out, win as allocated *)
  out_initial : nat -> complex;
  win_initial : nat -> R;
  rx_sample_size : Z;         (* iio_device_get_sample_size(rx) *)
  tx_sample_size : Z;         (* iio_device_get_sample_size(tx) *)
  sigint_in_init : bool       (* SIGINT arrived before the loop *)
}.

(** The places of one iteration at which SIGINT can arrive: before each of
    its stages. *)
Inductive phase := AtPush | AtRefill | AtAnalyse | AtCount | AtPublish | AtSynth.

#[global] Instance phase_eq_dec : EqDecision phase.
Proof. solve_decision. Defined.

(** What the outside world decides during one iteration. *)
Record cycle_env := {
  push_ret : Z;               (* iio_buffer_push(txbuf) *)
  refill_ret : Z;             (* iio_buffer_refill(rxbuf) *)
  rx_block : nat -> sample;   (* the sample at each position of rxbuf *)
  rx_len : nat;               (* the samples between iio_buffer_first(rxbuf,
                                 rx0_i) and iio_buffer_end(rxbuf) after the
                                 refill *)
  sigint_at : option phase
}.

(** The locals of [main] that live across iterations. *)
Record locals := {
  nrx : Z;
  ntx : Z;
  inb : list complex;
  outb : list complex;
  win : list R;
  txdata : list sample
}.

(** [static struct iio_device* get_ad9361_phy(struct iio_context *ctx)] *)
Definition get_ad9361_phy (e : init_env) : proc unit :=
  ASSERT (phy_dev_found e).

(** [get_ad9361_stream_dev] *)
Definition get_ad9361_stream_dev (e : init_env) (d : iodev) : proc bool :=
  match d with
  | TX => ret (tx_dev_found e)
  | RX => ret (rx_dev_found e)
  end.

(** [get_ad9361_stream_ch]: "voltage<chid>", else "altvoltage<chid>". *)
Definition get_ad9361_stream_ch (d : iodev) (q : bool) (c : chan_env)
    : proc bool :=
  let chn := by_voltage c in
  let chn := if negb chn then by_altvoltage c else chn in
  update (with_chan d q chn) ;;
  ret chn.

(** [get_phy_chan] *)
Definition get_phy_chan (e : init_env) (c : cfg_env) : proc bool :=
  get_ad9361_phy e ;; ret (phy_chan_found c).

(** [get_lo_chan] *)
Definition get_lo_chan (e : init_env) (c : cfg_env) : proc bool :=
  get_ad9361_phy e ;; ret (lo_chan_found c).

(** [wr_ch_lli], [wr_ch_str]: the write, then [errchk] on what it returned. *)
Definition wr_ch (v : Z) : proc unit := errchk v.

(** [bool cfg_ad9361_streaming_ch(ctx, cfg, type, chid)] *)
Definition cfg_ad9361_streaming_ch (e : init_env) (c : cfg_env) : proc bool :=
  found <- get_phy_chan e c ;;
  if negb found then ret false else
  wr_ch (rf_port_select_ret c) ;;
  wr_ch (rf_bandwidth_ret c) ;;
  wr_ch (sampling_frequency_ret c) ;;
  found <- get_lo_chan e c ;;
  if negb found then ret false else
  wr_ch (frequency_ret c) ;;
  ret true.

(** [iio_device_create_buffer] followed by the NULL test of [main]. *)
Definition create_buffer (d : iodev) (created : bool) : proc unit :=
  update (with_buf d created) ;;
  if negb created then shutdown else emit (Acquire (Buf d)).

(** How a run over a finite oracle ends: the process has terminated after
    [n] complete iterations, or it is still streaming after [n] of them
    because the oracle says nothing about the next one. *)
Inductive result :=
| Halted (n : nat) (tr : list event)
| Running (n : nat) (l : locals) (w : world).

(* ===================================================================== *)
(** ** One iteration of the loop *)
(* ===================================================================== *)

Section Streaming.

Variable buffer_size : nat.
Variable fft_size : nat.
Variable plan : fftw_plan.
Variables rxcfg txcfg : stream_cfg.
Variable e : init_env.

(** SIGINT, if the oracle places it here, runs [handle_sig]. *)
Definition deliver (c : cycle_env) (p : phase) : proc unit :=
  if decide (sigint_at c = Some p) then handle_sig else ret tt.

(** [nrx += nbytes_rx / iio_device_get_sample_size(rx);] the quotient is
    signed and truncating, the sum is a [size_t]. *)
Definition count (n nbytes ssz : Z) : Z :=
  wrap_size_t (n + Z.quot nbytes ssz).

(** The transport buffer as the loop walks it, from
    [iio_buffer_first(rxbuf, rx0_i)] up to [p_end = iio_buffer_end(rxbuf)]:
    the samples that the refill delivered, which are no more than the
    [buffer_size] samples the buffer was created for. *)
Definition rx_samples (c : cycle_env) : list sample :=
  map (rx_block c) (seq 0 (Nat.min (rx_len c) buffer_size)).

(** The body of [while (!stop) { ... }]. *)
Definition cycle (c : cycle_env) (l : locals) : proc locals :=
  (* Schedule TX buffer *)
  deliver c AtPush ;;
  let nbytes_tx := push_ret c in
  (if nbytes_tx <? 0 then shutdown else emit (Push (txdata l))) ;;
  (* Refill RX buffer *)
  deliver c AtRefill ;;
  let nbytes_rx := refill_ret c in
  let blk := rx_samples c in
  (if nbytes_rx <? 0 then shutdown else emit (Refill blk)) ;;
  (* Hanning window, copy into in, transform *)
  deliver c AtAnalyse ;;
  let win' := window_loop fft_size (win l) in
  let in' := fill_in fft_size win' blk (inb l) in
  let out' := fftw_execute plan in' in
  (* Sample counter increment and status output *)
  deliver c AtCount ;;
  (if (rx_sample_size e =? 0) || (tx_sample_size e =? 0)
   then (fun w => Halt (trace w ++ [Fault])) else ret tt) ;;
  let nrx' := count (nrx l) nbytes_rx (rx_sample_size e) in
  let ntx' := count (ntx l) nbytes_tx (tx_sample_size e) in
  emit (Status nrx' ntx') ;;
  (* fft.csv is rewritten from scratch *)
  deliver c AtPublish ;;
  emit (Acquire (FileH FftCsv)) ;;
  emit (Publish (spectrum fft_size (fs_hz rxcfg) out')) ;;
  emit (Release (FileH FftCsv)) ;;
  (* Fill the TX buffer; [double i = 1. / txcfg.fs_hz;] is a local of
     the loop body *)
  deliver c AtSynth ;;
  let i := (1 / IZR (fs_hz txcfg))%R in
  let tx := tx_loop (fs_hz txcfg) (txdata l) i in
  emit (Synth (map fst tx)) ;;
  ret {| nrx := nrx'; ntx := ntx'; inb := in'; outb := out';
         win := win'; txdata := map snd tx |}.

(** What an iteration that runs to its end leaves in the locals. *)
Definition next_locals (c : cycle_env) (l : locals) : locals :=
  let win' := window_loop fft_size (win l) in
  let in' := fill_in fft_size win' (rx_samples c) (inb l) in
  {| nrx := count (nrx l) (refill_ret c) (rx_sample_size e);
     ntx := count (ntx l) (push_ret c) (tx_sample_size e);
     inb := in';
     outb := fftw_execute plan in';
     win := win';
     txdata := map snd (tx_loop (fs_hz txcfg) (txdata l)
                                (1 / IZR (fs_hz txcfg))%R) |}.

(** What an iteration that runs to its end adds to the trace. *)
Definition cycle_events (c : cycle_env) (l : locals) : list event :=
  [ Push (txdata l);
    Refill (rx_samples c);
    Status (nrx (next_locals c l)) (ntx (next_locals c l));
    Acquire (FileH FftCsv);
    Publish (spectrum fft_size (fs_hz rxcfg) (outb (next_locals c l)));
    Release (FileH FftCsv);
    Synth (map fst (tx_loop (fs_hz txcfg) (txdata l)
                            (1 / IZR (fs_hz txcfg))%R)) ].

(** The flag after an iteration during which SIGINT may have arrived. *)
Definition signalled (c : cycle_env) (w : world) : world :=
  match sigint_at c with
  | Some _ => with_stop true w
  | None => w
  end.

(** What follows the loop: [fclose(fp1); fclose(fp2);
    fftw_destroy_plan(plan); fftw_free(in); fftw_free(out); shutdown();] *)
Definition after_loop : proc unit :=
  emit (Release (FileH OutputCsv)) ;;
  emit (Release (FileH InputCsv)) ;;
  emit (Release Plan) ;;
  emit (Release FftIn) ;;
  emit (Release FftOut) ;;
  shutdown.

(** [while (!stop) { ... }] and what follows it. *)
Fixpoint streaming (cycles : list cycle_env) (n : nat) (l : locals)
    (w : world) : result :=
  if stop w then
    match after_loop w with
    | Halt tr => Halted n tr
    | Ret _ w' => Running n l w'
    end
  else
    match cycles with
    | [] => Running n l w
    | c :: rest =>
        match cycle c l w with
        | Ret l' w' => streaming rest (S n) l' w'
        | Halt tr => Halted n tr
        end
    end.

End Streaming.


(* ===================================================================== *)
(** ** [main] *)
(* ===================================================================== *)

(** [int buffer_size = 1024 * 1024;] *)
Definition buffer_size : nat := 1024 * 1024.
(** [fft_size = 1024;] *)
Definition fft_size : nat := 1024.

Definition rxcfg : stream_cfg :=
  {| bw_hz := MHZ 19.366; fs_hz := MHZ 30.72; lo_hz := GHZ 1;
     rfport := "A_BALANCED" |}.
Definition txcfg : stream_cfg :=
  {| bw_hz := MHZ 19.365; fs_hz := MHZ 30.72; lo_hz := GHZ 1;
     rfport := "A" |}.

(** [plan = fftw_plan_dft_1d(fft_size, in, out, FFTW_FORWARD, FFTW_ESTIMATE);] *)
Definition plan : fftw_plan := fftw_plan_dft_1d fft_size FFTW_FORWARD.

(** The locals as the loop finds them: counters at zero, arrays and TX
    buffer with whatever they held when allocated. *)
Definition locals0 (e : init_env) : locals :=
  {| nrx := 0; ntx := 0;
     inb := map (in_initial e) (seq 0 fft_size);
     outb := map (out_initial e) (seq 0 fft_size);
     win := map (win_initial e) (seq 0 fft_size);
     txdata := map (tx_initial e) (seq 0 buffer_size) |}.

(** [main] up to the loop. *)
Definition init (e : init_env) : proc locals :=
  (* signal(SIGINT, handle_sig) is in force from here on *)
  update (with_ctx (context_created e)) ;;
  ASSERT (context_created e) ;;
  emit (Acquire Ctx) ;;
  ASSERT (0 <? devices_count e) ;;
  b <- get_ad9361_stream_dev e TX ;; ASSERT b ;;
  b <- get_ad9361_stream_dev e RX ;; ASSERT b ;;
  b <- cfg_ad9361_streaming_ch e (rx_cfg_env e) ;; ASSERT b ;;
  b <- cfg_ad9361_streaming_ch e (tx_cfg_env e) ;; ASSERT b ;;
  b <- get_ad9361_stream_ch RX false (rx0_i_env e) ;; ASSERT b ;;
  b <- get_ad9361_stream_ch RX true (rx0_q_env e) ;; ASSERT b ;;
  b <- get_ad9361_stream_ch TX false (tx0_i_env e) ;; ASSERT b ;;
  b <- get_ad9361_stream_ch TX true (tx0_q_env e) ;; ASSERT b ;;
  (* iio_channel_enable *)
  emit (Acquire (Chan RX false)) ;;
  emit (Acquire (Chan RX true)) ;;
  emit (Acquire (Chan TX false)) ;;
  emit (Acquire (Chan TX true)) ;;
  create_buffer RX (rxbuf_created e) ;;
  create_buffer TX (txbuf_created e) ;;
  (* configure fft *)
  emit (Acquire FftIn) ;;
  emit (Acquire FftOut) ;;
  emit (Acquire Plan) ;;
  emit (Acquire WinMem) ;;
  emit (Acquire (FileH OutputCsv)) ;;
  emit (Acquire (FileH InputCsv)) ;;
  (if sigint_in_init e then handle_sig else ret tt) ;;
  ret (locals0 e).

(** [int main (int argc, char **argv)] against an oracle. *)
Definition main (e : init_env) (cycles : list cycle_env) : result :=
  match init e world0 with
  | Halt tr => Halted 0 tr
  | Ret l w => streaming buffer_size fft_size plan rxcfg txcfg e cycles 0 l w
  end.

(** The locals with which an iteration of [main] can start. *)
Inductive reachable (e : init_env) : locals -> Prop :=
| reach_init : reachable e (locals0 e)
| reach_step (c : cycle_env) (l : locals) :
    reachable e l ->
    reachable e (next_locals buffer_size fft_size plan txcfg e c l).

(** The locals after a list of iterations that all ran to their end. *)
Fixpoint loop_locals (e : init_env) (cycles : list cycle_env) (l : locals)
    : locals :=
  match cycles with
  | [] => l
  | c :: rest =>
      loop_locals e rest (next_locals buffer_size fft_size plan txcfg e c l)
  end.

(** What a list of iterations that all ran to their end adds to the
    trace. *)
Fixpoint loop_events (e : init_env) (cycles : list cycle_env) (l : locals)
    : list event :=
  match cycles with
  | [] => []
  | c :: rest =>
      cycle_events buffer_size fft_size plan rxcfg txcfg e c l ++
      loop_events e rest (next_locals buffer_size fft_size plan txcfg e c l)
  end.

(** The same iteration with SIGINT arriving at [p], or not at all. *)
Definition at_phase (p : option phase) (c : cycle_env) : cycle_env :=
  {| push_ret := push_ret c; refill_ret := refill_ret c;
     rx_block := rx_block c; rx_len := rx_len c; sigint_at := p |}.

(** How a finished trace ended. *)
Inductive termination :=
| Exited (code : Z)    (* normal termination with this status *)
| Aborted              (* killed by SIGABRT *)
| Faulted.             (* killed by SIGFPE *)

Definition termination_of (tr : list event) : option termination :=
  match last tr with
  | Some (Exit code) => Some (Exited code)
  | Some Abort => Some Aborted
  | Some Fault => Some Faulted
  | _ => None
  end.

Definition result_trace (r : result) : list event :=
  match r with
  | Halted _ tr => tr
  | Running _ _ w => trace w
  end.

(** The number of iterations that ran to their end. *)
Definition result_cycles (r : result) : nat :=
  match r with
  | Halted n _ => n
  | Running n _ _ => n
  end.

(* ===================================================================== *)
(** ** What the design document says, in its own words *)
(* ===================================================================== *)

(** The successive contents of fft.csv. *)
Definition published (tr : list event) : list (list bin) :=
  flat_map (fun ev => match ev with Publish s => [s] | _ => [] end) tr.

(** The totals printed, iteration after iteration. *)
Definition statuses (tr : list event) : list (Z * Z) :=
  flat_map (fun ev => match ev with Status a b => [(a, b)] | _ => [] end) tr.

(** The times handed to the tones, one list per outgoing block. *)
Definition synth_times (tr : list event) : list (list R) :=
  flat_map (fun ev => match ev with Synth ts => [ts] | _ => [] end) tr.

(** The blocks handed to the transport. *)
Definition pushed (tr : list event) : list (list sample) :=
  flat_map (fun ev => match ev with Push b => [b] | _ => [] end) tr.

(** AnalysisBlock of the document: [in[k] = (I_k + j Q_k) * window[k]] with
    the Hann taper [w[k] = 0.5 (1 - cos (2 pi k / (n - 1)))], over the first
    [n] pairs. *)
Definition analysis_block_spec (n : nat) (samples : nat -> sample)
    : list complex :=
  map (fun k : nat =>
         let w := (0.5 * (1 - cos (2 * PI * INR k / (INR n - 1))))%R in
         Cplx (IZR (fst (samples k)) * w) (IZR (snd (samples k)) * w))
      (seq 0 n).

(** Spectrum of the document: bin [k] is at [(k / n) * sample_rate] and has
    magnitude [20 log10 |out[k]|], [out] the forward transform of the
    AnalysisBlock. *)
Definition spectrum_spec (n : nat) (sample_rate_hz : Z)
    (samples : nat -> sample) : list bin :=
  map (fun k : nat =>
         ((INR k / INR n * IZR sample_rate_hz)%R,
          dbl_scale 20
            (log10 (cabs (dft_bin FFTW_FORWARD n
                                  (analysis_block_spec n samples) k)))))
      (seq 0 n).

(** The magnitude printed for a bin whose amplitude is zero. *)
Definition zero_magnitude_floor : dbl := dbl_scale 20 (log10 (cabs C0)).

(** Two-tone sample of the document at time [t]. *)
Definition two_tone_I (A f1 f2 t : R) : R :=
  (A * cos (2 * PI * f1 * t) + A * cos (2 * PI * f2 * t))%R.
Definition two_tone_Q (A f1 f2 t : R) : R :=
  (A * sin (2 * PI * f1 * t) + A * sin (2 * PI * f2 * t))%R.

(** The frequencies of the two tones in Hz; [freq1] and [freq2] are in
    radians per second. *)
Definition tone1_hz : R := (freq1 / (2 * PI))%R.
Definition tone2_hz : R := (freq2 / (2 * PI))%R.

(** [z] is [x] quantized to an integer by dropping its fraction: [z] lies
    between zero and [x], less than one away from [x]. *)
Definition quantized (x : R) (z : Z) : Prop :=
  (0 <= x -> IZR z <= x < IZR z + 1)%R /\
  (x <= 0 -> IZR z - 1 < x <= IZR z)%R.

(** The time of slot [k] of an outgoing block when the accumulator starts
    each block at [1 / sample_rate]. *)
Definition block_times (len : nat) (sample_rate_hz : Z) : list R :=
  map (fun k : nat => ((INR k + 1) / IZR sample_rate_hz)%R) (seq 0 len).

(** A sequence of times that advances by [1 / sample_rate] at every step. *)
Definition phase_continuous (sample_rate_hz : Z) (ts : list R) : Prop :=
  forall k : nat, (S k < length ts)%nat ->
    nth (S k) ts 0%R = (nth k ts 0%R + 1 / IZR sample_rate_hz)%R.

(** The transport moved a whole block in both directions. *)
Definition full_transfer (e : init_env) (c : cycle_env) : Prop :=
  push_ret c = Z.of_nat buffer_size * tx_sample_size e /\
  refill_ret c = Z.of_nat buffer_size * rx_sample_size e.

(** Samples counted over a list of iterations, were none to wrap. *)
Definition samples_moved (ret : cycle_env -> Z) (ssz : Z)
    (cycles : list cycle_env) : Z :=
  fold_right (fun c acc => Z.max 0 (Z.quot (ret c) ssz) + acc) 0 cycles.

(** The totals after each of a list of iterations, from [a] received and
    [b] sent: every iteration adds the bytes moved divided by the sample
    width. *)
Fixpoint running_totals (e : init_env) (a b : Z) (cycles : list cycle_env)
    : list (Z * Z) :=
  match cycles with
  | [] => []
  | c :: rest =>
      let a' := a + Z.quot (refill_ret c) (rx_sample_size e) in
      let b' := b + Z.quot (push_ret c) (tx_sample_size e) in
      (a', b') :: running_totals e a' b' rest
  end.

(** A list of totals that never goes down. *)
Fixpoint non_decreasing (from : Z) (l : list Z) : Prop :=
  match l with
  | [] => True
  | x :: rest => from <= x /\ non_decreasing x rest
  end.

(** No [ASSERT] of the set-up fails. *)
Definition cfg_asserts_hold (c : cfg_env) : bool :=
  phy_chan_found c && lo_chan_found c.
Definition chan_found (c : chan_env) : bool :=
  by_voltage c || by_altvoltage c.
Definition asserts_hold (e : init_env) : bool :=
  context_created e && (0 <? devices_count e) && phy_dev_found e &&
  tx_dev_found e && rx_dev_found e &&
  cfg_asserts_hold (rx_cfg_env e) && cfg_asserts_hold (tx_cfg_env e) &&
  chan_found (rx0_i_env e) && chan_found (rx0_q_env e) &&
  chan_found (tx0_i_env e) && chan_found (tx0_q_env e).

(** No attribute write is refused. *)
Definition cfg_writes_ok (c : cfg_env) : bool :=
  (0 <=? rf_port_select_ret c) && (0 <=? rf_bandwidth_ret c) &&
  (0 <=? sampling_frequency_ret c) && (0 <=? frequency_ret c).

(** The set-up reaches the loop with the flag clear. *)
Definition init_ok (e : init_env) : bool :=
  asserts_hold e &&
  cfg_writes_ok (rx_cfg_env e) && cfg_writes_ok (tx_cfg_env e) &&
  rxbuf_created e && txbuf_created e && negb (sigint_in_init e).

(** Both transport calls of the iteration succeed. *)
Definition transport_ok (c : cycle_env) : bool :=
  (0 <=? push_ret c) && (0 <=? refill_ret c).

(** SIGINT does not arrive during the iteration. *)
Definition quiet (c : cycle_env) : bool :=
  match sigint_at c with None => true | Some _ => false end.

(** The handles [shutdown] is in charge of, in the order it visits them. *)
Definition transport_handles : list handle :=
  [Buf RX; Buf TX; Chan RX false; Chan RX true; Chan TX false; Chan TX true;
   Ctx].

Definition is_transport (h : handle) : bool :=
  match h with
  | Ctx | Chan _ _ | Buf _ => true
  | _ => false
  end.

(** The transport handles released along a trace, in order. *)
Definition transport_releases (tr : list event) : list handle :=
  flat_map (fun ev => match ev with
                      | Release h => if is_transport h then [h] else []
                      | _ => []
                      end) tr.

Definition acquired (h : handle) (tr : list event) : bool :=
  existsb (fun ev => match ev with
                     | Acquire h' => bool_decide (h' = h)
                     | _ => false
                     end) tr.

Definition released (h : handle) (tr : list event) : bool :=
  existsb (fun ev => match ev with
                     | Release h' => bool_decide (h' = h)
                     | _ => false
                     end) tr.

(** [a] is released at some point and [b] at a later one. *)
Definition released_before (a b : handle) (tr : list event) : Prop :=
  exists i j : nat,
    tr !! i = Some (Release a) /\ tr !! j = Some (Release b) /\ (i < j)%nat.

(** The release sequence the document asks for on an error path: nothing
    acquired is left, the outgoing buffer goes before the incoming one, and
    the context is given back. *)
Definition full_release_sequence (tr : list event) : Prop :=
  (forall h : handle, acquired h tr = true -> released h tr = true) /\
  released_before (Buf TX) (Buf RX) tr /\
  released Ctx tr = true.

(** The trace and the file-scope variables when the loop is reached. *)
Definition ready_trace : list event :=
  [ Acquire Ctx;
    Acquire (Chan RX false); Acquire (Chan RX true);
    Acquire (Chan TX false); Acquire (Chan TX true);
    Acquire (Buf RX); Acquire (Buf TX);
    Acquire FftIn; Acquire FftOut; Acquire Plan; Acquire WinMem;
    Acquire (FileH OutputCsv); Acquire (FileH InputCsv) ].

Definition world_ready (stopped : bool) (tr : list event) : world :=
  {| ctx := true; rx0_i := true; rx0_q := true; tx0_i := true;
     tx0_q := true; rxbuf := true; txbuf := true; stop := stopped;
     trace := tr |}.

(** The traces of a set-up that ends in [shutdown]: an attribute write was
    refused, the RX buffer could not be created, the TX buffer could not
    be created. *)
Definition refused_write_trace : list event :=
  [ Acquire Ctx; Release Ctx; Exit 0 ].
Definition no_rxbuf_trace : list event :=
  [ Acquire Ctx;
    Acquire (Chan RX false); Acquire (Chan RX true);
    Acquire (Chan TX false); Acquire (Chan TX true);
    Release (Chan RX false); Release (Chan RX true);
    Release (Chan TX false); Release (Chan TX true);
    Release Ctx; Exit 0 ].
Definition no_txbuf_trace : list event :=
  [ Acquire Ctx;
    Acquire (Chan RX false); Acquire (Chan RX true);
    Acquire (Chan TX false); Acquire (Chan TX true);
    Acquire (Buf RX);
    Release (Buf RX);
    Release (Chan RX false); Release (Chan RX true);
    Release (Chan TX false); Release (Chan TX true);
    Release Ctx; Exit 0 ].

(** The events of set-up and tear-down, as opposed to those of the loop. *)
Definition is_setup_event (ev : event) : bool :=
  match ev with
  | Acquire _ | Release _ | Exit _ | Abort => true
  | _ => false
  end.

(** What the normal path gives back before it calls [shutdown]. *)
Definition closing_events : list event :=
  [ Release (FileH OutputCsv); Release (FileH InputCsv);
    Release Plan; Release FftIn; Release FftOut ].

(** The events with which the normal path and [shutdown] end a run that
    reached the loop. *)
Definition shutting_down : list event :=
  [ Release (FileH OutputCsv); Release (FileH InputCsv);
    Release Plan; Release FftIn; Release FftOut;
    Release (Buf RX); Release (Buf TX);
    Release (Chan RX false); Release (Chan RX true);
    Release (Chan TX false); Release (Chan TX true);
    Release Ctx; Exit 0 ].

(* ===================================================================== *)
(** ** Sample oracles *)
(* ===================================================================== *)

Definition cfg_env_ok : cfg_env :=
  {| phy_chan_found := true; rf_port_select_ret := 0; rf_bandwidth_ret := 0;
     sampling_frequency_ret := 0; lo_chan_found := true; frequency_ret := 0 |}.

Definition chan_env_ok : chan_env :=
  {| by_voltage := true; by_altvoltage := false |}.

(** A device that answers every call of the set-up as asked, except where
    the arguments say otherwise. *)
Definition env_with (context : bool) (rx_cfg : cfg_env) (rx_buffer : bool)
    : init_env :=
  {| context_created := context; devices_count := 5;
     phy_dev_found := true; tx_dev_found := true; rx_dev_found := true;
     rx_cfg_env := rx_cfg; tx_cfg_env := cfg_env_ok;
     rx0_i_env := chan_env_ok; rx0_q_env := chan_env_ok;
     tx0_i_env := chan_env_ok; tx0_q_env := chan_env_ok;
     rxbuf_created := rx_buffer; txbuf_created := true;
     tx_initial := fun _ => (0, 0);
     in_initial := fun _ => C0; out_initial := fun _ => C0;
     win_initial := fun _ => 0%R;
     rx_sample_size := 4; tx_sample_size := 4;
     sigint_in_init := false |}.

Definition env_ok : init_env := env_with true cfg_env_ok true.

(** [get_phy_chan] does not find the RX port: the configuration of the RX
    side fails with "RX port 0 not found". *)
Definition cfg_env_no_port : cfg_env :=
  {| phy_chan_found := false; rf_port_select_ret := 0; rf_bandwidth_ret := 0;
     sampling_frequency_ret := 0; lo_chan_found := true; frequency_ret := 0 |}.

Definition env_no_port : init_env := env_with true cfg_env_no_port true.

(** A transport that moves whole blocks of a constant sample. *)
Definition cycle_with (push refill : Z) (s : sample) (sig : option phase)
    : cycle_env :=
  {| push_ret := push; refill_ret := refill; rx_block := fun _ => s;
     rx_len := buffer_size; sigint_at := sig |}.

Definition cycle_ok : cycle_env := cycle_with 4194304 4194304 (3, -4) None.

(** A refill that succeeds with 600 samples, 2400 bytes, where a whole
    block is 1048576 samples. *)
Definition cycle_short : cycle_env :=
  {| push_ret := 4194304; refill_ret := 2400; rx_block := fun _ => (3, -4);
     rx_len := 600; sigint_at := None |}.

(** [iio_buffer_push] fails with -EPIPE. *)
Definition cycle_push_error : cycle_env := cycle_with (-32) 0 (0, 0) None.

(* ===================================================================== *)
(** ** More ways to look at a run *)
(* ===================================================================== *)

(** The set-up reaches the loop, the flag set or not. *)
Definition setup_ok (e : init_env) : bool :=
  asserts_hold e &&
  cfg_writes_ok (rx_cfg_env e) && cfg_writes_ok (tx_cfg_env e) &&
  rxbuf_created e && txbuf_created e.

(** The calls into the transport along a trace: [TX] for a push, [RX] for
    a refill. *)
Definition transport_calls (tr : list event) : list iodev :=
  flat_map (fun ev => match ev with
                      | Push _ => [TX]
                      | Refill _ => [RX]
                      | _ => []
                      end) tr.

(** A device that answers every call as asked, and a user who presses
    ctrl+c while the set-up is still going on. *)
Definition env_sigint_early : init_env :=
  {| context_created := true; devices_count := 5;
     phy_dev_found := true; tx_dev_found := true; rx_dev_found := true;
     rx_cfg_env := cfg_env_ok; tx_cfg_env := cfg_env_ok;
     rx0_i_env := chan_env_ok; rx0_q_env := chan_env_ok;
     tx0_i_env := chan_env_ok; tx0_q_env := chan_env_ok;
     rxbuf_created := true; txbuf_created := true;
     tx_initial := fun _ => (0, 0);
     in_initial := fun _ => C0; out_initial := fun _ => C0;
     win_initial := fun _ => 0%R;
     rx_sample_size := 4; tx_sample_size := 4;
     sigint_in_init := true |}.

(** An attribute write of the RX configuration is refused with -EINVAL. *)
Definition cfg_env_refused : cfg_env :=
  {| phy_chan_found := true; rf_port_select_ret := 0;
     rf_bandwidth_ret := -22; sampling_frequency_ret := 0;
     lo_chan_found := true; frequency_ret := 0 |}.

(** The block that every iteration of [main] synthesizes. *)
Definition synth_block : list sample :=
  map synth_sample (block_times buffer_size (fs_hz txcfg)).

(* ===================================================================== *)
(** ** The configuration, channel by channel *)
(* ===================================================================== *)

(** What [printf]'s conversion [%d] writes. *)
Definition decimal (id : Z) : string := NilZero.string_of_int (Z.to_int id).

(** [static char* get_ch_name(const char* type, int id)]:
    [snprintf(tmpstr, sizeof(tmpstr), "%s%d", type, id)] with the 64 bytes
    of [tmpstr], that is at most 63 characters and the final NUL.  The
    callers use the result before the next call overwrites [tmpstr]. *)
Definition get_ch_name (type : string) (id : Z) : string :=
  substring 0 63 (String.append type (decimal id)).

(** A channel as libiio finds it: on a device, by name and direction. *)
Record iio_channel := {
  chn_dev : string;
  chn_name : string;
  chn_output : bool
}.

Inductive attr_value :=
| AttrStr (s : string)     (* iio_channel_attr_write *)
| AttrLL (v : Z).          (* iio_channel_attr_write_longlong *)

(** One attribute write handed to libiio. *)
Record attr_write := {
  w_chn : iio_channel;
  w_attr : string;
  w_val : attr_value
}.

(** The device, as far as the configuration can see it. *)
Record device_env := {
  has_device : string -> bool;          (* iio_context_find_device *)
  has_channel : iio_channel -> bool;    (* iio_device_find_channel *)
  attr_write_ret : iio_channel -> string -> attr_value -> Z
}.

(** How a step of the configuration ends, with the writes issued so
    far. *)
Inductive cfg_result (A : Type) :=
| CfgRet (a : A) (writes : list attr_write)
| CfgAbort (writes : list attr_write)        (* a failed ASSERT *)
| CfgShutdown (writes : list attr_write).    (* errchk called shutdown *)
Arguments CfgRet {A} a writes.
Arguments CfgAbort {A} writes.
Arguments CfgShutdown {A} writes.

Definition cfg_writes_of {A} (r : cfg_result A) : list attr_write :=
  match r with
  | CfgRet _ ws => ws
  | CfgAbort ws => ws
  | CfgShutdown ws => ws
  end.

(** The channel [get_phy_chan] asks for: "voltage<chid>" on the phy, an
    input for RX and an output for TX. *)
Definition phy_chan (d : iodev) (chid : Z) : iio_channel :=
  {| chn_dev := "ad9361-phy";
     chn_name := get_ch_name "voltage" chid;
     chn_output := match d with RX => false | TX => true end |}.

(** The channel [get_lo_chan] asks for: "altvoltage0" for RX and
    "altvoltage1" for TX, always an output. *)
Definition lo_chan (d : iodev) : iio_channel :=
  {| chn_dev := "ad9361-phy";
     chn_name := get_ch_name "altvoltage" (match d with RX => 0 | TX => 1 end);
     chn_output := true |}.

(** [wr_ch_lli] and [wr_ch_str]: the write is issued, then [errchk] looks
    at what it returned. *)
Definition wr_ch_named (dev : device_env) (chn : iio_channel) (what : string)
    (v : attr_value) (k : list attr_write -> cfg_result bool)
    (log : list attr_write) : cfg_result bool :=
  let log' := log ++ [{| w_chn := chn; w_attr := what; w_val := v |}] in
  if attr_write_ret dev chn what v <? 0 then CfgShutdown log' else k log'.

(** [cfg_ad9361_streaming_ch(ctx, cfg, type, chid)] with the names, the
    directions and the values it hands to libiio. *)
Definition cfg_ad9361_streaming_ch_named (dev : device_env)
    (cfg : stream_cfg) (type : iodev) (chid : Z) : cfg_result bool :=
  (* get_phy_chan: ASSERT in get_ad9361_phy, then the look-up *)
  if negb (has_device dev "ad9361-phy") then CfgAbort [] else
  let chn := phy_chan type chid in
  if negb (has_channel dev chn) then CfgRet false [] else
  wr_ch_named dev chn "rf_port_select" (AttrStr (rfport cfg))
    (wr_ch_named dev chn "rf_bandwidth" (AttrLL (bw_hz cfg))
       (wr_ch_named dev chn "sampling_frequency" (AttrLL (fs_hz cfg))
          (fun log =>
             (* get_lo_chan *)
             if negb (has_device dev "ad9361-phy") then CfgAbort log else
             let lo := lo_chan type in
             if negb (has_channel dev lo) then CfgRet false log else
             wr_ch_named dev lo "frequency" (AttrLL (lo_hz cfg))
               (fun log => CfgRet true log) log)))
    [].

(** The writes of a configuration that goes through. *)
Definition cfg_writes (cfg : stream_cfg) (type : iodev) (chid : Z)
    : list attr_write :=
  [ {| w_chn := phy_chan type chid; w_attr := "rf_port_select";
       w_val := AttrStr (rfport cfg) |};
    {| w_chn := phy_chan type chid; w_attr := "rf_bandwidth";
       w_val := AttrLL (bw_hz cfg) |};
    {| w_chn := phy_chan type chid; w_attr := "sampling_frequency";
       w_val := AttrLL (fs_hz cfg) |};
    {| w_chn := lo_chan type; w_attr := "frequency";
       w_val := AttrLL (lo_hz cfg) |} ].

(** [get_ad9361_stream_ch] with the names it tries: "voltage<chid>", then
    "altvoltage<chid>", as an output for TX and an input for RX. *)
Definition get_ad9361_stream_ch_named (dev : device_env) (d : iodev)
    (devname : string) (chid : Z) : option iio_channel :=
  let output := match d with TX => true | RX => false end in
  let first_try := {| chn_dev := devname;
                      chn_name := get_ch_name "voltage" chid;
                      chn_output := output |} in
  let second_try := {| chn_dev := devname;
                       chn_name := get_ch_name "altvoltage" chid;
                       chn_output := output |} in
  if has_channel dev first_try then Some first_try
  else if has_channel dev second_try then Some second_try
  else None.

(** The device took this write. *)
Definition accepted (dev : device_env) (w : attr_write) : Prop :=
  0 <= attr_write_ret dev (w_chn w) (w_attr w) (w_val w).

(* ===================================================================== *)
(** * Properties *)
(* ===================================================================== *)

(** ** Arrays written by a counting loop *)

Section CountingLoop.

Context {A : Type}.
Variable f : nat -> A.

Lemma fold_insert_lookup (k a : nat) (l : list A) (i : nat) :
  fold_left (fun (l : list A) (c : nat) => <[c := f c]> l) (seq a k) l !! i
  = if decide ((a <= i < a + k)%nat /\ (i < length l)%nat)
    then Some (f i) else l !! i.
Proof.
  revert a l. induction k as [|k IH]; intros a l; simpl.
  - case_decide; [lia | reflexivity].
  - rewrite IH, length_insert.
    destruct (decide (i = a)) as [->|Hne].
    + destruct (decide (a < length l)%nat).
      * rewrite list_lookup_insert_eq by assumption.
        repeat case_decide; try reflexivity; lia.
      * rewrite list_insert_ge by lia.
        repeat case_decide; try reflexivity; lia.
    + rewrite list_lookup_insert_ne by congruence.
      repeat case_decide; try reflexivity; lia.
Qed.

Lemma fold_insert_all (n : nat) (l : list A) :
  length l = n ->
  fold_left (fun (l : list A) (c : nat) => <[c := f c]> l) (seq 0 n) l
  = map f (seq 0 n).
Proof.
  intros Hlen. apply list_eq. intros i.
  rewrite fold_insert_lookup, list_lookup_fmap.
  destruct (decide (i < n)%nat) as [Hi|Hi].
  - rewrite lookup_seq_lt by assumption. simpl.
    case_decide; [reflexivity | lia].
  - rewrite lookup_seq_ge by lia. simpl.
    case_decide; [lia |]. apply lookup_ge_None. lia.
Qed.

Lemma fold_insert_length (k a : nat) (l : list A) :
  length (fold_left (fun (l : list A) (c : nat) => <[c := f c]> l)
                    (seq a k) l) = length l.
Proof.
  revert a l. induction k as [|k IH]; intros a l; simpl; [reflexivity|].
  rewrite IH. apply length_insert.
Qed.

End CountingLoop.

(** ** The Hann taper *)

Section Hann.

Local Open Scope R_scope.

Lemma win_hanning_eq (j n : Z) :
  win_hanning j n = 0.5 * (1 - cos (2 * PI / IZR (n - 1) * IZR j)).
Proof. reflexivity. Qed.

Variable n : Z.
Hypothesis Hn : (2 <= n)%Z.

Local Abbreviation d := (IZR (n - 1)).

Lemma hann_d_pos : 0 < d.
Proof. apply IZR_lt. lia. Qed.



Lemma hann_angle_full : 2 * PI / d * d = 2 * PI.
Proof. pose proof hann_d_pos. field. lra. Qed.



Lemma win_hanning_last : win_hanning (n - 1) n = 0.
Proof.
  rewrite win_hanning_eq. rewrite hann_angle_full, cos_2PI. lra.
Qed.






End Hann.

(** ** The window as [main] builds it *)

Lemma window_loop_spec (N : nat) (w0 : list R) :
  length w0 = N ->
  window_loop N w0
  = map (fun j : nat => win_hanning (Z.of_nat j) (Z.of_nat N)) (seq 0 N).
Proof.
  intros Hlen. unfold window_loop.
  apply (fold_insert_all
           (fun c : nat => win_hanning (Z.of_nat c) (Z.of_nat N))).
  exact Hlen.
Qed.

Lemma window_loop_length (N : nat) (w0 : list R) :
  length (window_loop N w0) = length w0.
Proof. unfold window_loop. apply fold_insert_length. Qed.




(** ** One iteration, case by case *)

Section CycleFacts.

Variable bs n : nat.
Variable pl : fftw_plan.
Variables rxc txc : stream_cfg.
Variable e : init_env.

Lemma releases_with_stop (b : bool) (w : world) :
  releases (with_stop b w) = releases w.
Proof. reflexivity. Qed.

Lemma releases_with_trace (t : list event) (w : world) :
  releases (with_trace t w) = releases w.
Proof. reflexivity. Qed.

Lemma cycle_run (c : cycle_env) (l : locals) (w : world) :
  cycle bs n pl rxc txc e c l w =
    if push_ret c <? 0 then
      Halt (trace w ++ releases w ++ [Exit 0])
    else if refill_ret c <? 0 then
      Halt (trace w ++ [Push (txdata l)] ++ releases w ++ [Exit 0])
    else if (rx_sample_size e =? 0) || (tx_sample_size e =? 0) then
      Halt (trace w ++ [Push (txdata l); Refill (rx_samples bs c); Fault])
    else
      Ret (next_locals bs n pl txc e c l)
          (with_trace (trace w ++ cycle_events bs n pl rxc txc e c l)
                      (signalled c w)).
Proof.
  unfold cycle, cycle_events, next_locals, signalled, rx_samples, deliver,
    bind, emit, update, handle_sig, shutdown, ret.
  destruct w as [c0 c1 c2 c3 c4 b1 b2 st tr].
  destruct (sigint_at c) as [[]|];
    destruct (push_ret c <? 0); simpl;
    try reflexivity;
    destruct (refill_ret c <? 0); simpl;
    rewrite <- ?app_assoc; simpl; try reflexivity;
    destruct ((rx_sample_size e =? 0) || (tx_sample_size e =? 0)); simpl;
    rewrite <- ?app_assoc; simpl; reflexivity.
Qed.

End CycleFacts.

(** ** The set-up, case by case *)

Ltac asserts_fail :=
  apply not_true_iff_false; intros Hall;
  unfold asserts_hold, cfg_asserts_hold, chan_found in Hall; simpl in Hall;
  repeat (apply andb_prop in Hall; destruct Hall as [Hall ?]);
  simpl in *; congruence.

Ltac init_aborts :=
  left; eexists; split;
  [reflexivity | split; [reflexivity | split; [asserts_fail | reflexivity]]].

Ltac init_exits :=
  right; left; eexists; split; [reflexivity | simpl; tauto].

(** An [ASSERT]: go on if it holds, the run is over if it does not. *)
Ltac pass b := destruct b eqn:?; simpl; [ | solve [init_aborts | init_exits] ].
(** A test that leads to [shutdown] when it succeeds. *)
Ltac survive b := destruct b eqn:?; simpl; [ solve [init_exits] | ].

Lemma init_cases (e : init_env) :
  (exists tr, init e world0 = Halt tr /\ last tr = Some Abort /\
              asserts_hold e = false /\ forallb is_setup_event tr = true) \/
  (exists tr, init e world0 = Halt tr /\
              In tr [refused_write_trace; no_rxbuf_trace; no_txbuf_trace]) \/
  (init e world0 = Ret (locals0 e) (world_ready (sigint_in_init e) ready_trace)
   /\ asserts_hold e = true).
Proof.
  destruct e as [cc dc phy txd rxd [rp r1 r2 r3 rl r4] [tp t1 t2 t3 tl t4]
                 [a1 a2] [b1 b2] [c1 c2] [d1 d2] rb tb ti ii oi wi rs ts sg].
  unfold init, cfg_ad9361_streaming_ch, get_phy_chan, get_lo_chan,
    get_ad9361_phy, get_ad9361_stream_dev, get_ad9361_stream_ch, wr_ch,
    errchk, create_buffer, ASSERT, bind, emit, update, handle_sig, shutdown,
    ret, world0.
  simpl.
  pass cc. pass (0 <? dc). pass txd. pass rxd.
  pass phy. pass rp.
  survive (r1 <? 0). survive (r2 <? 0). survive (r3 <? 0).
  pass rl. survive (r4 <? 0).
  pass tp.
  survive (t1 <? 0). survive (t2 <? 0). survive (t3 <? 0).
  pass tl. survive (t4 <? 0).
  assert (Hor : forall x y : bool, (if negb x then y else x) = x || y)
    by (intros [] []; reflexivity).
  rewrite !Hor.
  pass (a1 || a2). pass (b1 || b2). pass (c1 || c2). pass (d1 || d2).
  pass rb. pass tb.
  right; right. split.
  - destruct sg; reflexivity.
  - unfold asserts_hold, cfg_asserts_hold, chan_found. simpl.
    repeat match goal with H : _ = true |- _ => rewrite H; clear H end.
    reflexivity.
Qed.

(** ** The loop, case by case *)

Section LoopFacts.

Variable bs n : nat.
Variable pl : fftw_plan.
Variables rxc txc : stream_cfg.
Variable e : init_env.

Local Abbreviation run := (streaming bs n pl rxc txc e).
Local Abbreviation step := (next_locals bs n pl txc e).
Local Abbreviation events := (cycle_events bs n pl rxc txc e).

Lemma after_loop_run (w : world) :
  after_loop w = Halt (trace w ++ closing_events ++ releases w ++ [Exit 0]).
Proof.
  unfold after_loop, bind, emit, shutdown. destruct w. simpl.
  rewrite <- !app_assoc. reflexivity.
Qed.

(** Induction over a run: the six ways an inspection of the flag can
    go on. *)
Lemma streaming_cases
    (P : list cycle_env -> nat -> locals -> world -> result -> Prop) :
  (forall cycles k l w, stop w = true ->
     P cycles k l w
       (Halted k (trace w ++ closing_events ++ releases w ++ [Exit 0]))) ->
  (forall k l w, stop w = false -> P [] k l w (Running k l w)) ->
  (forall c rest k l w, stop w = false -> push_ret c < 0 ->
     P (c :: rest) k l w (Halted k (trace w ++ releases w ++ [Exit 0]))) ->
  (forall c rest k l w, stop w = false ->
     0 <= push_ret c -> refill_ret c < 0 ->
     P (c :: rest) k l w
       (Halted k (trace w ++ [Push (txdata l)] ++ releases w ++ [Exit 0]))) ->
  (forall c rest k l w, stop w = false ->
     0 <= push_ret c -> 0 <= refill_ret c ->
     rx_sample_size e = 0 \/ tx_sample_size e = 0 ->
     P (c :: rest) k l w
       (Halted k (trace w ++
                  [Push (txdata l); Refill (rx_samples bs c); Fault]))) ->
  (forall c rest k l w r, stop w = false ->
     0 <= push_ret c -> 0 <= refill_ret c ->
     rx_sample_size e <> 0 -> tx_sample_size e <> 0 ->
     P rest (S k) (step c l)
       (with_trace (trace w ++ events c l) (signalled c w)) r ->
     P (c :: rest) k l w r) ->
  forall cycles k l w, P cycles k l w (run cycles k l w).
Proof.
  intros Hstop Hnil Hpush Hrefill Hfault Hstep.
  induction cycles as [|c rest IH]; intros k l w; cbn [streaming].
  - destruct (stop w) eqn:Hs.
    + rewrite after_loop_run. apply Hstop, Hs.
    + apply Hnil, Hs.
  - destruct (stop w) eqn:Hs.
    + rewrite after_loop_run. apply Hstop, Hs.
    + rewrite cycle_run.
      destruct (Z.ltb_spec (push_ret c) 0) as [Hp|Hp];
        [apply Hpush; assumption|].
      destruct (Z.ltb_spec (refill_ret c) 0) as [Hr|Hr];
        [apply Hrefill; assumption|].
      destruct (Z.eqb_spec (rx_sample_size e) 0) as [Hrs|Hrs]; simpl;
        [apply Hfault; auto|].
      destruct (Z.eqb_spec (tx_sample_size e) 0) as [Hts|Hts]; simpl;
        [apply Hfault; auto|].
      apply Hstep; try assumption. apply IH.
Qed.

End LoopFacts.

(** ** The analysis block *)

Section FillFacts.

Variable n : nat.
Variable win : list R.

Local Abbreviation entry blk j k :=
  (cmul (iq (nth j blk (0, 0))) (of_real (nth k win 0%R))).

Lemma fill_fold (blk : list sample) :
  forall (inb : list complex) (cnt : nat), (cnt <= n)%nat ->
  let r := fold_left (fill_step n win) blk (inb, cnt) in
  snd r = Nat.min (cnt + length blk) n /\
  forall i : nat,
    fst r !! i =
      if decide ((cnt <= i < Nat.min (cnt + length blk) n)%nat /\
                 (i < length inb)%nat)
      then Some (entry blk (i - cnt)%nat i)
      else inb !! i.
Proof.
  induction blk as [|s blk IH]; intros inb cnt Hcnt; simpl.
  - split; [lia|]. intros i. case_decide; [lia | reflexivity].
  - destruct (Nat.ltb_spec cnt n) as [Hlt|Hge].
    + destruct (IH (<[cnt := cmul (iq s) (of_real (nth cnt win 0%R))]> inb)
                   (S cnt)) as [Hsnd Hfst]; [lia|].
      split; [rewrite Hsnd; lia|].
      intros i. rewrite Hfst, length_insert.
      destruct (decide (i = cnt)) as [->|Hne].
      * destruct (decide (cnt < length inb)%nat).
        -- rewrite list_lookup_insert_eq by assumption.
           repeat case_decide; try lia.
           replace (cnt - cnt)%nat with 0%nat by lia. reflexivity.
        -- rewrite list_insert_ge by lia.
           repeat case_decide; try lia. reflexivity.
      * rewrite list_lookup_insert_ne by congruence.
        repeat case_decide; try lia; try reflexivity.
        replace (i - cnt)%nat with (S (i - S cnt)) by lia. reflexivity.
    + destruct (IH inb cnt) as [Hsnd Hfst]; [lia|].
      split; [rewrite Hsnd; lia|].
      intros i. rewrite Hfst.
      repeat case_decide; try lia; reflexivity.
Qed.

Lemma fill_fold_length (blk : list sample) :
  forall (inb : list complex) (cnt : nat),
  length (fst (fold_left (fill_step n win) blk (inb, cnt))) = length inb.
Proof.
  induction blk as [|s blk IH]; intros inb cnt; simpl; [reflexivity|].
  destruct (cnt <? n)%nat.
  - rewrite IH, length_insert. reflexivity.
  - apply IH.
Qed.

Lemma fill_in_length (blk : list sample) (inb : list complex) :
  length (fill_in n win blk inb) = length inb.
Proof. apply fill_fold_length. Qed.

Lemma fill_in_spec (blk : list sample) (inb : list complex) :
  length inb = n -> (n <= length blk)%nat ->
  fill_in n win blk inb = map (fun k : nat => entry blk k k) (seq 0 n).
Proof.
  intros Hlen Hblk. unfold fill_in.
  destruct (fill_fold blk inb 0) as [_ Hfst]; [lia|].
  apply list_eq. intros i. rewrite Hfst, list_lookup_fmap.
  destruct (decide (i < n)%nat) as [Hi|Hi].
  - rewrite lookup_seq_lt by assumption. simpl.
    case_decide; [|lia].
    replace (i - 0)%nat with i by lia. reflexivity.
  - rewrite lookup_seq_ge by lia. simpl.
    case_decide; [lia|]. apply lookup_ge_None. lia.
Qed.

End FillFacts.

Lemma nth_map_seq {A : Type} (f : nat -> A) (d : A) (len k : nat) :
  (k < len)%nat -> nth k (map f (seq 0 len)) d = f k.
Proof.
  intros Hk. rewrite (nth_indep _ d (f 0%nat)) by (rewrite length_map, length_seq; exact Hk).
  rewrite (map_nth f (seq 0 len) 0%nat k), seq_nth by exact Hk. reflexivity.
Qed.

Lemma iq_windowed (s : sample) (w : R) :
  cmul (iq s) (of_real w)
  = Cplx (IZR (fst s) * w) (IZR (snd s) * w).
Proof. unfold cmul, iq, cadd, of_real, Ci. simpl. f_equal; ring. Qed.

Lemma win_hanning_nat (k n : nat) :
  win_hanning (Z.of_nat k) (Z.of_nat n)
  = (0.5 * (1 - cos (2 * PI * INR k / (INR n - 1))))%R.
Proof.
  unfold win_hanning. rewrite minus_IZR, <- !INR_IZR_INZ.
  do 3 f_equal. unfold Rdiv. ring.
Qed.

(** The array [in] after the two loops over a refilled buffer. *)
Lemma analysis_block_refines (bs n : nat) (samples : nat -> sample)
    (win0 : list R) (in0 : list complex) :
  (n <= bs)%nat -> length win0 = n -> length in0 = n ->
  fill_in n (window_loop n win0) (map samples (seq 0 bs)) in0
  = analysis_block_spec n samples.
Proof.
  intros Hbs Hwin Hin.
  rewrite fill_in_spec; [| exact Hin | rewrite length_map, length_seq; exact Hbs].
  unfold analysis_block_spec. apply map_ext_in. intros k Hk.
  apply in_seq in Hk.
  rewrite window_loop_spec by exact Hwin.
  rewrite !nth_map_seq by lia.
  rewrite iq_windowed, win_hanning_nat. reflexivity.
Qed.

(** The lines of fft.csv computed from the transform of [in]. *)
Lemma spectrum_refines (n : nat) (fs : Z) (x : list complex) :
  spectrum n fs (fftw_execute (fftw_plan_dft_1d n FFTW_FORWARD) x)
  = map (fun k : nat =>
           ((INR k / INR n * IZR fs)%R,
            dbl_scale 20 (log10 (cabs (dft_bin FFTW_FORWARD n x k)))))
        (seq 0 n).
Proof.
  unfold spectrum, fftw_execute. simpl.
  apply map_ext_in. intros k Hk. apply in_seq in Hk.
  rewrite nth_map_seq by lia. rewrite <- !INR_IZR_INZ. reflexivity.
Qed.

(** ** What a trace shows *)

Lemma published_app (a b : list event) :
  published (a ++ b) = published a ++ published b.
Proof. apply flat_map_app. Qed.

Lemma statuses_app (a b : list event) :
  statuses (a ++ b) = statuses a ++ statuses b.
Proof. apply flat_map_app. Qed.

Lemma synth_times_app (a b : list event) :
  synth_times (a ++ b) = synth_times a ++ synth_times b.
Proof. apply flat_map_app. Qed.

Lemma setup_events_silent (tr : list event) :
  forallb is_setup_event tr = true ->
  published tr = [] /\ statuses tr = [] /\ synth_times tr = [].
Proof.
  induction tr as [|ev tr IH]; simpl; [intros _; repeat split|].
  intros H. apply andb_prop in H. destruct H as [Hev Htr].
  destruct (IH Htr) as (Hp & Hs & Ht).
  destruct ev; simpl in *; try discriminate; repeat split; assumption.
Qed.

Lemma releases_setup (w : world) :
  forallb is_setup_event (releases w) = true.
Proof. destruct w as [[] [] [] [] [] [] [] s t]; reflexivity. Qed.

Lemma forallb_app_true {A : Type} (f : A -> bool) (a b : list A) :
  forallb f a = true -> forallb f b = true -> forallb f (a ++ b) = true.
Proof. intros Ha Hb. rewrite forallb_app, Ha, Hb. reflexivity. Qed.

(** The tail that [shutdown] adds shows nothing of the loop. *)
Lemma shutdown_tail_silent (pre : list event) (w : world) :
  forallb is_setup_event pre = true ->
  forallb is_setup_event (pre ++ releases w ++ [Exit 0]) = true.
Proof.
  intros Hpre. apply forallb_app_true; [exact Hpre|].
  apply forallb_app_true; [apply releases_setup | reflexivity].
Qed.

Lemma main_cases (e : init_env) (cycles : list cycle_env) :
  (exists tr, main e cycles = Halted 0 tr /\ last tr = Some Abort /\
              asserts_hold e = false /\ forallb is_setup_event tr = true) \/
  (exists tr, main e cycles = Halted 0 tr /\
              In tr [refused_write_trace; no_rxbuf_trace; no_txbuf_trace]) \/
  (main e cycles
   = streaming buffer_size fft_size plan rxcfg txcfg e cycles 0 (locals0 e)
       (world_ready (sigint_in_init e) ready_trace)
   /\ asserts_hold e = true).
Proof.
  unfold main.
  destruct (init_cases e) as [(tr & -> & H)|[(tr & -> & H)|[-> H]]].
  - left. exists tr. split; [reflexivity | exact H].
  - right; left. exists tr. split; [reflexivity | exact H].
  - right; right. split; [reflexivity | exact H].
Qed.

(** ** What the loop publishes *)

Section Published.

Variable bs n : nat.
Variables rxc txc : stream_cfg.
Variable e : init_env.
Hypothesis Hbs : (n <= bs)%nat.

Local Abbreviation pl := (fftw_plan_dft_1d n FFTW_FORWARD).

Lemma next_locals_lengths (c : cycle_env) (l : locals) :
  length (inb l) = n -> length (win l) = n ->
  length (inb (next_locals bs n pl txc e c l)) = n /\
  length (win (next_locals bs n pl txc e c l)) = n.
Proof.
  intros Hin Hwin. cbn [next_locals inb win]. split.
  - rewrite fill_in_length. exact Hin.
  - rewrite window_loop_length. exact Hwin.
Qed.

(** The array [in] after an iteration whose refill delivered at least [n]
    samples. *)
Lemma next_locals_inb (c : cycle_env) (l : locals) :
  length (inb l) = n -> length (win l) = n -> (n <= rx_len c)%nat ->
  inb (next_locals bs n pl txc e c l) = analysis_block_spec n (rx_block c).
Proof.
  intros Hin Hwin Hlen. cbn [next_locals inb]. unfold rx_samples.
  apply analysis_block_refines; try assumption.
  apply Nat.min_glb; assumption.
Qed.

Lemma cycle_spectrum (c : cycle_env) (l : locals) :
  length (inb l) = n -> length (win l) = n -> (n <= rx_len c)%nat ->
  spectrum n (fs_hz rxc) (outb (next_locals bs n pl txc e c l))
  = spectrum_spec n (fs_hz rxc) (rx_block c).
Proof.
  intros Hin Hwin Hlen.
  pose proof (next_locals_inb c l Hin Hwin Hlen) as Hblock.
  cbn [next_locals inb outb] in *. rewrite spectrum_refines, Hblock.
  reflexivity.
Qed.

Lemma run_published (cycles : list cycle_env) (k : nat) (l : locals)
    (w : world) :
  length (inb l) = n -> length (win l) = n ->
  let r := streaming bs n pl rxc txc e cycles k l w in
  (k <= result_cycles r)%nat /\
  (result_cycles r - k <= length cycles)%nat /\
  exists ps : list (list bin),
    published (result_trace r) = published (trace w) ++ ps /\
    length ps = (result_cycles r - k)%nat /\
    forall (j : nat) (c : cycle_env),
      cycles !! j = Some c -> (j < result_cycles r - k)%nat ->
      (n <= rx_len c)%nat ->
      ps !! j = Some (spectrum_spec n (fs_hz rxc) (rx_block c)).
Proof.
  simpl.
  apply (streaming_cases bs n pl rxc txc e
           (fun cycles k l w r =>
              length (inb l) = n -> length (win l) = n ->
              (k <= result_cycles r)%nat /\
              (result_cycles r - k <= length cycles)%nat /\
              exists ps : list (list bin),
                published (result_trace r) = published (trace w) ++ ps /\
                length ps = (result_cycles r - k)%nat /\
                forall (j : nat) (c : cycle_env),
                  cycles !! j = Some c -> (j < result_cycles r - k)%nat ->
                  (n <= rx_len c)%nat ->
                  ps !! j = Some (spectrum_spec n (fs_hz rxc) (rx_block c))));
    clear cycles k l w.
  - intros cycles k l w _ _ _. cbn [result_cycles result_trace].
    split; [lia|]. split; [lia|]. exists [].
    rewrite Nat.sub_diag. split; [|split; [reflexivity | intros; lia]].
    rewrite published_app. f_equal.
    apply (setup_events_silent (closing_events ++ releases w ++ [Exit 0])).
    apply shutdown_tail_silent. reflexivity.
  - intros k l w _ _ _. cbn [result_cycles result_trace].
    split; [lia|]. split; [lia|]. exists [].
    rewrite Nat.sub_diag. split; [|split; [reflexivity | intros; lia]].
    rewrite app_nil_r. reflexivity.
  - intros c rest k l w _ _ _ _. cbn [result_cycles result_trace].
    split; [lia|]. split; [lia|]. exists [].
    rewrite Nat.sub_diag. split; [|split; [reflexivity | intros; lia]].
    rewrite published_app. f_equal.
    apply (setup_events_silent ([] ++ releases w ++ [Exit 0])).
    apply shutdown_tail_silent. reflexivity.
  - intros c rest k l w _ _ _ _ _. cbn [result_cycles result_trace].
    split; [lia|]. split; [lia|]. exists [].
    rewrite Nat.sub_diag. split; [|split; [reflexivity | intros; lia]].
    rewrite published_app. f_equal.
    apply (setup_events_silent (releases w ++ [Exit 0])).
    apply (shutdown_tail_silent [] w). reflexivity.
  - intros c rest k l w _ _ _ _ _ _. cbn [result_cycles result_trace].
    split; [lia|]. split; [lia|]. exists [].
    rewrite Nat.sub_diag. split; [|split; [reflexivity | intros; lia]].
    rewrite published_app. reflexivity.
  - intros c rest k l w r _ _ _ _ _ IH Hin Hwin.
    destruct (next_locals_lengths c l Hin Hwin) as [Hin' Hwin'].
    destruct (IH Hin' Hwin') as (Hk & Hle & ps & Hpub & Hlen & Heach).
    split; [lia|]. split; [cbn [length]; lia|].
    exists (spectrum n (fs_hz rxc) (outb (next_locals bs n pl txc e c l))
            :: ps).
    split; [|split].
    + rewrite Hpub. simpl trace. rewrite published_app, <- app_assoc.
      reflexivity.
    + cbn [length]. lia.
    + intros [|j] c' Hc' Hj Hn.
      * injection Hc' as <-. cbn [lookup list_lookup].
        rewrite cycle_spectrum by assumption. reflexivity.
      * apply (Heach j c' Hc'); [lia | exact Hn].
Qed.

End Published.

Lemma fft_within_buffer : (fft_size <= buffer_size)%nat.
Proof. unfold fft_size, buffer_size. lia. Qed.

Lemma buffer_size_pos : (0 < buffer_size)%nat.
Proof. unfold buffer_size. lia. Qed.

Lemma buffer_size_Z : Z.of_nat buffer_size = 1048576.
Proof. unfold buffer_size. lia. Qed.

(** From here on the size of the buffers is used through these facts and
    never by unfolding its million units. *)
Opaque buffer_size.

Lemma locals0_lengths (e : init_env) :
  length (inb (locals0 e)) = fft_size /\ length (win (locals0 e)) = fft_size.
Proof.
  unfold locals0. cbn [inb win].
  rewrite !length_map, !length_seq. split; reflexivity.
Qed.

Lemma setup_traces_silent (tr : list event) :
  In tr [refused_write_trace; no_rxbuf_trace; no_txbuf_trace] ->
  forallb is_setup_event tr = true.
Proof. simpl. intros [<-|[<-|[<-|[]]]]; reflexivity. Qed.

(** The successive contents of fft.csv: one per completed iteration,
    and the spectrum of the document whenever the refill delivered at
    least [fft_size] samples. *)
Lemma main_published_each (e : init_env) (cycles : list cycle_env) :
  (result_cycles (main e cycles) <= length cycles)%nat /\
  length (published (result_trace (main e cycles)))
  = result_cycles (main e cycles) /\
  forall (j : nat) (c : cycle_env),
    cycles !! j = Some c -> (j < result_cycles (main e cycles))%nat ->
    (fft_size <= rx_len c)%nat ->
    published (result_trace (main e cycles)) !! j
    = Some (spectrum_spec fft_size (fs_hz rxcfg) (rx_block c)).
Proof.
  destruct (main_cases e cycles)
    as [(tr & -> & _ & _ & Hs)|[(tr & -> & Hin)|[-> _]]].
  - cbn [result_trace result_cycles].
    destruct (setup_events_silent tr Hs) as (-> & _).
    split; [lia|]. split; [reflexivity | intros; lia].
  - cbn [result_trace result_cycles].
    destruct (setup_events_silent tr (setup_traces_silent tr Hin)) as (-> & _).
    split; [lia|]. split; [reflexivity | intros; lia].
  - destruct (locals0_lengths e) as [Hin Hwin].
    destruct (run_published buffer_size fft_size rxcfg txcfg e
                fft_within_buffer cycles 0 (locals0 e)
                (world_ready (sigint_in_init e) ready_trace) Hin Hwin)
      as (_ & Hle & ps & Hpub & Hlen & Heach).
    unfold plan. rewrite Nat.sub_0_r in *.
    change (published (trace (world_ready (sigint_in_init e) ready_trace)))
      with (@nil (list bin)) in Hpub.
    rewrite Hpub. split; [exact Hle|]. split; [exact Hlen | exact Heach].
Qed.




(** ** A silent input *)

Section Silence.

Local Open Scope R_scope.

Lemma cmul_C0_l (z : complex) : cmul C0 z = C0.
Proof. unfold cmul, C0. simpl. f_equal; ring. Qed.

Lemma csum_zeros (l : list complex) :
  Forall (fun z => z = C0) l -> csum l = C0.
Proof.
  induction 1 as [|z l Hz _ IH]; simpl; [reflexivity|].
  rewrite Hz, IH. unfold cadd, C0. simpl. f_equal; ring.
Qed.

Lemma cabs_C0 : cabs C0 = 0.
Proof.
  unfold cabs, C0. simpl.
  replace (0 * 0 + 0 * 0) with 0 by ring. apply sqrt_0.
Qed.

Lemma zero_magnitude_floor_eq : zero_magnitude_floor = NegInf.
Proof.
  unfold zero_magnitude_floor. rewrite cabs_C0. unfold log10.
  destruct (Req_dec_T 0 0) as [_|Hne]; [|contradiction].
  simpl. destruct (Rlt_dec 0 20) as [_|Hn]; [reflexivity | lra].
Qed.

Lemma silent_block (n : nat) (samples : nat -> sample) (j : nat) :
  (forall k : nat, (k < n)%nat -> samples k = (0, 0)%Z) ->
  nth j (analysis_block_spec n samples) C0 = C0.
Proof.
  intros Hz. destruct (Nat.lt_ge_cases j n) as [Hj|Hj].
  - unfold analysis_block_spec. rewrite nth_map_seq by exact Hj.
    rewrite (Hz j Hj). simpl. unfold C0. f_equal; ring.
  - apply nth_overflow. unfold analysis_block_spec.
    rewrite length_map, length_seq. exact Hj.
Qed.

Lemma silent_bin (n : nat) (samples : nat -> sample) (k : nat) :
  (forall k : nat, (k < n)%nat -> samples k = (0, 0)%Z) ->
  dft_bin FFTW_FORWARD n (analysis_block_spec n samples) k = C0.
Proof.
  intros Hz. unfold dft_bin. apply csum_zeros.
  apply Forall_map, Forall_forall. intros j _.
  rewrite silent_block by exact Hz. apply cmul_C0_l.
Qed.

Lemma silent_spectrum (n : nat) (fs : Z) (samples : nat -> sample) :
  (forall k : nat, (k < n)%nat -> samples k = (0, 0)%Z) ->
  spectrum_spec n fs samples
  = map (fun k : nat => (INR k / INR n * IZR fs, zero_magnitude_floor))
        (seq 0 n).
Proof.
  intros Hz. unfold spectrum_spec. apply map_ext. intros k.
  rewrite silent_bin by exact Hz. reflexivity.
Qed.

End Silence.

(** C9.  When the block refilled in a completed iteration holds at least
    [fft_size] samples and all of them are zero, every line written to
    fft.csv in that iteration carries the magnitude the engine gives to a
    zero amplitude, which is [-inf]: the value is printed and the
    iteration completes, no error path is taken. *)
Theorem silent_block_at_floor (e : init_env) (cycles : list cycle_env)
    (k : nat) (c : cycle_env) :
  cycles !! k = Some c ->
  (k < result_cycles (main e cycles))%nat ->
  (fft_size <= rx_len c)%nat ->
  (forall j : nat, (j < rx_len c)%nat -> rx_block c j = (0, 0)%Z) ->
  published (result_trace (main e cycles)) !! k
  = Some (map (fun j : nat =>
                 ((INR j / INR fft_size * IZR (fs_hz rxcfg))%R,
                  zero_magnitude_floor))
              (seq 0 fft_size))
  /\ zero_magnitude_floor = NegInf.
Proof.
  intros Hc Hk Hlen Hzero. split; [|apply zero_magnitude_floor_eq].
  destruct (main_published_each e cycles) as (_ & _ & Heach).
  transitivity (Some (spectrum_spec fft_size (fs_hz rxcfg) (rx_block c)));
    [exact (Heach k c Hc Hk Hlen)|].
  rewrite silent_spectrum by (intros j Hj; apply Hzero; lia). reflexivity.
Qed.

Lemma silent_block_at_floor_witness :
  [cycle_with 4194304 4194304 (0, 0)%Z None] !! 0%nat
  = Some (cycle_with 4194304 4194304 (0, 0)%Z None) /\
  (0 < result_cycles (main env_ok [cycle_with 4194304 4194304 (0, 0)%Z None]))%nat /\
  (fft_size <= rx_len (cycle_with 4194304 4194304 (0, 0)%Z None))%nat /\
  published (result_trace
               (main env_ok [cycle_with 4194304 4194304 (0, 0)%Z None])) !! 0%nat
  = Some (map (fun j : nat =>
                 ((INR j / INR fft_size * IZR (fs_hz rxcfg))%R,
                  zero_magnitude_floor))
              (seq 0 fft_size)).
Proof.
  split; [reflexivity|].
  split; [exact (Nat.lt_0_succ 0)|].
  split; [exact fft_within_buffer|].
  apply (silent_block_at_floor env_ok
           [cycle_with 4194304 4194304 (0, 0)%Z None] 0
           (cycle_with 4194304 4194304 (0, 0)%Z None)).
  - reflexivity.
  - exact (Nat.lt_0_succ 0).
  - exact fft_within_buffer.
  - intros j _. reflexivity.
Defined.

(** ** The loop over the TX buffer *)

Lemma tx_loop_length (fs : Z) (slots : list sample) (i : R) :
  length (tx_loop fs slots i) = length slots.
Proof.
  revert i. induction slots as [|s slots IH]; intros i; simpl;
    [reflexivity | rewrite IH; reflexivity].
Qed.

Lemma tx_loop_samples (fs : Z) (slots : list sample) (i : R) :
  map snd (tx_loop fs slots i)
  = map synth_sample (map fst (tx_loop fs slots i)).
Proof.
  revert i. induction slots as [|s slots IH]; intros i; simpl;
    [reflexivity | rewrite IH; reflexivity].
Qed.

Lemma tx_loop_times (fs : Z) (slots : list sample) (i : R) :
  map fst (tx_loop fs slots i)
  = map (fun k : nat => (i + INR k * (1 / IZR fs))%R) (seq 0 (length slots)).
Proof.
  revert i. induction slots as [|s slots IH]; intros i; [reflexivity|].
  cbn [tx_loop map fst length seq]. f_equal.
  - simpl. ring.
  - rewrite IH, <- seq_shift, map_map. apply map_ext. intros k.
    rewrite S_INR. ring.
Qed.

Lemma tx_loop_block_times (fs : Z) (slots : list sample) :
  map fst (tx_loop fs slots (1 / IZR fs)%R)
  = block_times (length slots) fs.
Proof.
  rewrite tx_loop_times. unfold block_times. apply map_ext. intros k.
  unfold Rdiv. ring.
Qed.

(** ** The last pair of the analysis block *)

Lemma analysis_block_last (n : nat) (samples : nat -> sample) :
  (2 <= n)%nat ->
  analysis_block_spec n samples !! (n - 1)%nat = Some C0.
Proof.
  intros Hn. unfold analysis_block_spec.
  rewrite list_lookup_fmap, lookup_seq_lt by lia. simpl.
  rewrite <- win_hanning_nat.
  replace (Z.of_nat (n - 1)) with (Z.of_nat n - 1) by lia.
  rewrite win_hanning_last by lia.
  unfold C0. do 2 f_equal; ring.
Qed.

Lemma reachable_lengths (e : init_env) (l : locals) :
  reachable e l ->
  length (inb l) = fft_size /\ length (win l) = fft_size /\
  length (txdata l) = buffer_size.
Proof.
  induction 1 as [|c l _ (Hin & Hwin & Htx)].
  - destruct (locals0_lengths e) as [Hin Hwin].
    split; [exact Hin|]. split; [exact Hwin|].
    unfold locals0. cbn [txdata]. rewrite length_map, length_seq. reflexivity.
  - destruct (next_locals_lengths buffer_size fft_size txcfg e
                c l Hin Hwin) as [Hin' Hwin'].
    split; [exact Hin'|]. split; [exact Hwin'|].
    cbn [next_locals txdata]. rewrite length_map, tx_loop_length.
    exact Htx.
Qed.

(** A run that is still going has been through every iteration of the
    oracle. *)
Lemma run_locals (e : init_env) (cycles : list cycle_env) (k0 : nat)
    (l0 : locals) (w0 : world) (k : nat) (l : locals) (w : world) :
  streaming buffer_size fft_size plan rxcfg txcfg e cycles k0 l0 w0
  = Running k l w ->
  l = loop_locals e cycles l0 /\ k = (k0 + length cycles)%nat.
Proof.
  revert k l w.
  apply (streaming_cases buffer_size fft_size plan rxcfg txcfg e
           (fun cycles k0 l0 w0 r =>
              forall k l w, r = Running k l w ->
              l = loop_locals e cycles l0 /\ k = (k0 + length cycles)%nat));
    clear cycles k0 l0 w0; try (intros; discriminate).
  - intros k0 l0 w0 _ k l w [= <- <- _]. cbn [loop_locals length].
    split; [reflexivity | lia].
  - intros c rest k0 l0 w0 r _ _ _ _ _ IH k l w Hr.
    destruct (IH k l w Hr) as [-> ->]. cbn [loop_locals length].
    split; [reflexivity | lia].
Qed.

Lemma loop_locals_snoc (e : init_env) (cycles : list cycle_env)
    (c : cycle_env) (l : locals) :
  loop_locals e (cycles ++ [c]) l
  = next_locals buffer_size fft_size plan txcfg e c (loop_locals e cycles l).
Proof.
  revert l. induction cycles as [|c' rest IH]; intros l; [reflexivity|].
  cbn [app loop_locals]. apply IH.
Qed.

Lemma loop_locals_lengths (e : init_env) (cycles : list cycle_env)
    (l : locals) :
  length (inb l) = fft_size -> length (win l) = fft_size ->
  length (inb (loop_locals e cycles l)) = fft_size /\
  length (win (loop_locals e cycles l)) = fft_size.
Proof.
  revert l. induction cycles as [|c rest IH]; intros l Hin Hwin;
    [split; assumption|].
  cbn [loop_locals].
  destruct (next_locals_lengths buffer_size fft_size txcfg e c l Hin Hwin)
    as [Hin' Hwin'].
  apply IH; assumption.
Qed.

(** C10.  Whenever [main] has completed an iteration whose refill
    delivered at least [fft_size] samples, whatever these samples and the
    earlier iterations were, the last element [in[fft_size - 1]] of the
    analysis block it leaves is exactly zero: the Hann value at that index
    is [0.5 (1 - cos (2 pi)) = 0]. *)
Theorem analysis_block_ends_in_zero (e : init_env)
    (cycles : list cycle_env) (c : cycle_env) (k : nat) (l : locals)
    (w : world) :
  main e (cycles ++ [c]) = Running k l w ->
  (fft_size <= rx_len c)%nat ->
  inb l !! (fft_size - 1)%nat = Some C0.
Proof.
  intros Hrun Hlen.
  destruct (main_cases e (cycles ++ [c]))
    as [(tr & Hm & _)|[(tr & Hm & _)|[Hm _]]];
    rewrite Hm in Hrun; try discriminate.
  apply run_locals in Hrun. destruct Hrun as [-> _].
  rewrite loop_locals_snoc.
  destruct (locals0_lengths e) as [Hin0 Hwin0].
  destruct (loop_locals_lengths e cycles (locals0 e) Hin0 Hwin0)
    as [Hin Hwin].
  unfold plan.
  rewrite (next_locals_inb buffer_size fft_size txcfg e fft_within_buffer
             c (loop_locals e cycles (locals0 e)) Hin Hwin Hlen).
  apply analysis_block_last. unfold fft_size. lia.
Qed.

Lemma analysis_block_ends_in_zero_witness :
  main env_ok ([cycle_ok] ++ [cycle_ok])
  = Running 2 (loop_locals env_ok [cycle_ok; cycle_ok] (locals0 env_ok))
      (world_ready false
         (ready_trace
          ++ loop_events env_ok [cycle_ok; cycle_ok] (locals0 env_ok))) /\
  (fft_size <= rx_len cycle_ok)%nat /\
  inb (loop_locals env_ok [cycle_ok; cycle_ok] (locals0 env_ok))
    !! (fft_size - 1)%nat = Some C0.
Proof.
  assert (Hrun : main env_ok ([cycle_ok] ++ [cycle_ok])
                 = Running 2
                     (loop_locals env_ok [cycle_ok; cycle_ok]
                                  (locals0 env_ok))
                     (world_ready false
                        (ready_trace
                         ++ loop_events env_ok [cycle_ok; cycle_ok]
                                        (locals0 env_ok)))).
  { reflexivity. }
  split; [exact Hrun|]. split; [exact fft_within_buffer|].
  exact (analysis_block_ends_in_zero env_ok [cycle_ok] cycle_ok 2 _ _ Hrun
           fft_within_buffer).
Defined.

(** ** The times of the outgoing blocks *)

Lemma tx_fs_hz_value : fs_hz txcfg = 30720000.
Proof. reflexivity. Qed.

Lemma rx_fs_hz_value : fs_hz rxcfg = 30720000.
Proof. reflexivity. Qed.

Section BlockTimes.

Local Open Scope R_scope.

Variable len : nat.
Variable fs : Z.
Hypothesis Hfs : (0 < fs)%Z.

Lemma block_times_length : length (block_times len fs) = len.
Proof. unfold block_times. rewrite length_map, length_seq. reflexivity. Qed.

Lemma block_times_nth (k : nat) :
  (k < len)%nat -> nth k (block_times len fs) 0 = (INR k + 1) / IZR fs.
Proof.
  intros Hk. unfold block_times.
  exact (nth_map_seq (fun k : nat => (INR k + 1) / IZR fs) 0 len k Hk).
Qed.

Lemma fs_step_pos : 0 < 1 / IZR fs.
Proof. apply Rdiv_lt_0_compat; [lra | apply IZR_lt; exact Hfs]. Qed.

Lemma block_times_continuous : phase_continuous fs (block_times len fs).
Proof.
  intros k Hk. rewrite block_times_length in Hk.
  rewrite !block_times_nth by lia. rewrite S_INR. unfold Rdiv. ring.
Qed.

Lemma block_times_increasing (j k : nat) :
  (j < k < len)%nat ->
  nth j (block_times len fs) 0 < nth k (block_times len fs) 0.
Proof.
  intros Hjk. rewrite !block_times_nth by lia.
  assert (Hlt : INR j < INR k) by (apply lt_INR; lia).
  pose proof fs_step_pos as Hstep. unfold Rdiv in *.
  apply Rmult_lt_compat_r; lra.
Qed.

(** Two blocks in a row: the second starts where the first started. *)
Lemma block_times_restart :
  (0 < len)%nat ->
  ~ phase_continuous fs (concat (replicate 2 (block_times len fs))).
Proof.
  intros Hlen Hcont. cbn [replicate concat] in Hcont.
  rewrite app_nil_r in Hcont.
  specialize (Hcont (len - 1)%nat).
  rewrite length_app, block_times_length in Hcont.
  specialize (Hcont ltac:(lia)).
  replace (S (len - 1)) with len in Hcont by lia.
  rewrite app_nth2 in Hcont by (rewrite block_times_length; lia).
  rewrite app_nth1 in Hcont by (rewrite block_times_length; lia).
  rewrite block_times_length, Nat.sub_diag in Hcont.
  rewrite !block_times_nth in Hcont by lia.
  assert (Hk : 0 <= INR (len - 1)) by apply pos_INR.
  pose proof fs_step_pos as Hstep. unfold Rdiv in *.
  simpl in Hcont. nra.
Qed.

End BlockTimes.

Section SynthTimes.

Variable bs n : nat.
Variable pl : fftw_plan.
Variables rxc txc : stream_cfg.
Variable e : init_env.

Lemma run_synth_times (cycles : list cycle_env) (k : nat) (l : locals)
    (w : world) :
  length (txdata l) = bs ->
  let r := streaming bs n pl rxc txc e cycles k l w in
  (k <= result_cycles r)%nat /\
  synth_times (result_trace r)
  = synth_times (trace w) ++
    replicate (result_cycles r - k) (block_times bs (fs_hz txc)).
Proof.
  simpl.
  apply (streaming_cases bs n pl rxc txc e
           (fun cycles k l w r =>
              length (txdata l) = bs ->
              (k <= result_cycles r)%nat /\
              synth_times (result_trace r)
              = synth_times (trace w) ++
                replicate (result_cycles r - k)
                          (block_times bs (fs_hz txc))));
    clear cycles k l w.
  - intros cycles k l w _ _. simpl. split; [lia|].
    rewrite Nat.sub_diag, synth_times_app. simpl. f_equal.
    apply (setup_events_silent (closing_events ++ releases w ++ [Exit 0])).
    apply shutdown_tail_silent. reflexivity.
  - intros k l w _ _. simpl. split; [lia|].
    rewrite Nat.sub_diag. simpl. rewrite app_nil_r. reflexivity.
  - intros c rest k l w _ _ _. simpl. split; [lia|].
    rewrite Nat.sub_diag, synth_times_app. simpl. f_equal.
    apply (setup_events_silent ([] ++ releases w ++ [Exit 0])).
    apply shutdown_tail_silent. reflexivity.
  - intros c rest k l w _ _ _ _. simpl. split; [lia|].
    rewrite Nat.sub_diag, synth_times_app. simpl. f_equal.
    apply (setup_events_silent (releases w ++ [Exit 0])).
    apply (shutdown_tail_silent [] w). reflexivity.
  - intros c rest k l w _ _ _ _ _. simpl. split; [lia|].
    rewrite Nat.sub_diag, synth_times_app. reflexivity.
  - intros c rest k l w r _ _ _ _ _ IH Hlen.
    assert (Hlen' : length (txdata (next_locals bs n pl txc e c l)) = bs).
    { cbn [next_locals txdata]. rewrite length_map, tx_loop_length.
      exact Hlen. }
    destruct (IH Hlen') as [Hk Htimes].
    split; [lia|].
    rewrite Htimes. simpl trace. rewrite synth_times_app.
    replace (result_cycles r - k)%nat with (S (result_cycles r - S k))
      by lia.
    rewrite <- app_assoc. f_equal.
    cbn [replicate]. cbn [synth_times cycle_events flat_map app].
    rewrite tx_loop_block_times, Hlen. reflexivity.
Qed.

End SynthTimes.

Lemma main_synth_times (e : init_env) (cycles : list cycle_env) :
  synth_times (result_trace (main e cycles))
  = replicate (result_cycles (main e cycles))
              (block_times buffer_size (fs_hz txcfg)).
Proof.
  destruct (main_cases e cycles)
    as [(tr & -> & _ & _ & Hs)|[(tr & -> & Hin)|[-> _]]].
  - cbn [result_trace result_cycles replicate].
    apply setup_events_silent, Hs.
  - cbn [result_trace result_cycles replicate].
    apply setup_events_silent, setup_traces_silent, Hin.
  - destruct (reachable_lengths e (locals0 e) (reach_init e))
      as (_ & _ & Htx).
    destruct (run_synth_times buffer_size fft_size plan rxcfg txcfg e
                cycles 0 (locals0 e)
                (world_ready (sigint_in_init e) ready_trace) Htx)
      as [_ Htimes].
    rewrite Htimes, Nat.sub_0_r. reflexivity.
Qed.

(** C3 (as amended).  The TX phase accumulator is a local of one
    iteration: whatever the device does, every completed iteration starts
    it at [1 / sample_rate] and hands the synthesizer the same times, slot
    [k] of the block getting [(k + 1) / sample_rate].  Within a block the
    time advances by exactly [1 / sample_rate] per sample and is strictly
    increasing. *)
Theorem tx_phase_per_block (e : init_env) (cycles : list cycle_env) :
  synth_times (result_trace (main e cycles))
  = replicate (result_cycles (main e cycles))
              (block_times buffer_size (fs_hz txcfg))
  /\ phase_continuous (fs_hz txcfg) (block_times buffer_size (fs_hz txcfg))
  /\ (forall j k : nat, (j < k < buffer_size)%nat ->
        (nth j (block_times buffer_size (fs_hz txcfg)) 0
         < nth k (block_times buffer_size (fs_hz txcfg)) 0)%R)
  /\ nth 0 (block_times buffer_size (fs_hz txcfg)) 0%R
     = (1 / IZR (fs_hz txcfg))%R.
Proof.
  split; [apply main_synth_times|].
  split; [apply block_times_continuous|].
  split; [intros j k Hjk; apply block_times_increasing;
          [rewrite tx_fs_hz_value; lia | exact Hjk]|].
  rewrite block_times_nth by apply buffer_size_pos.
  simpl. unfold Rdiv. ring.
Qed.

(** C3 as the document words it fails after two iterations: the time of
    the first sample of the second block is not the time of the last sample
    of the first block plus one step. *)
Lemma tx_phase_restarts :
  ~ phase_continuous (fs_hz txcfg)
      (concat (synth_times
                 (result_trace (main env_ok [cycle_ok; cycle_ok])))).
Proof.
  rewrite main_synth_times.
  change (result_cycles (main env_ok [cycle_ok; cycle_ok])) with 2%nat.
  apply block_times_restart.
  - rewrite tx_fs_hz_value. lia.
  - apply buffer_size_pos.
Qed.

(** ** The synthesized sample *)

Section Quantize.

Local Open Scope R_scope.

Lemma Int_part_bounds (x : R) (b : Z) :
  0 <= x <= IZR b -> (0 <= Int_part x <= b)%Z.
Proof.
  intros [Hx0 Hxb]. destruct (base_Int_part x) as [Hle Hgt].
  split.
  - assert (H : IZR (-1) < IZR (Int_part x)) by (simpl; lra).
    apply lt_IZR in H. lia.
  - apply le_IZR. lra.
Qed.

Lemma Rtrunc_bounds (x : R) (b : Z) :
  - IZR b <= x <= IZR b -> (- b <= Rtrunc x <= b)%Z.
Proof.
  intros [Hlo Hhi]. unfold Rtrunc.
  destruct (Rle_dec 0 x) as [Hx|Hx].
  - destruct (Int_part_bounds x b) as [H0 Hb]; [lra | lia].
  - destruct (Int_part_bounds (- x) b) as [H0 Hb]; [lra | lia].
Qed.

Lemma wrap16_small (z : Z) :
  (-32768 <= z <= 32767)%Z -> wrap16 z = z.
Proof. intros Hz. unfold wrap16. rewrite Z.mod_small; lia. Qed.

Lemma two_tone_I_bound (f1 f2 t : R) :
  - IZR 256 <= two_tone_I 128 f1 f2 t <= IZR 256.
Proof.
  unfold two_tone_I.
  pose proof (COS_bound (2 * PI * f1 * t)).
  pose proof (COS_bound (2 * PI * f2 * t)). lra.
Qed.

Lemma two_tone_Q_bound (f1 f2 t : R) :
  - IZR 256 <= two_tone_Q 128 f1 f2 t <= IZR 256.
Proof.
  unfold two_tone_Q.
  pose proof (SIN_bound (2 * PI * f1 * t)).
  pose proof (SIN_bound (2 * PI * f2 * t)). lra.
Qed.

(** The conversion of a [double] to an integer drops the fraction. *)
Lemma Rtrunc_quantized (x : R) : quantized x (Rtrunc x).
Proof.
  unfold quantized, Rtrunc.
  destruct (Rle_dec 0 x) as [Hx|Hx].
  - destruct (base_Int_part x) as [Hle Hgt]. split; intros H; [lra|].
    assert (H0 : (0 <= Int_part x)%Z).
    { assert (Hlt : IZR (-1) < IZR (Int_part x)) by (simpl; lra).
      apply lt_IZR in Hlt. lia. }
    apply IZR_le in H0. lra.
  - destruct (base_Int_part (- x)) as [Hle Hgt]. rewrite opp_IZR.
    split; intros H; lra.
Qed.

Lemma to_short_exact (x : R) :
  - IZR 256 <= x <= IZR 256 ->
  to_short x = Rtrunc x /\ (-256 <= to_short x <= 256)%Z.
Proof.
  intros Hx. pose proof (Rtrunc_bounds x 256 Hx) as Hb.
  unfold to_short. rewrite wrap16_small by lia. split; [reflexivity | lia].
Qed.

End Quantize.

(** The angular frequencies as the program holds them: the narrowing to
    [float] moves [2 pi 8000000 = 50265482.457...] to the nearest multiple
    of 4 and [2 pi 4000000 = 25132741.228...] to the nearest multiple
    of 2. *)
Lemma angular_frequency_values :
  angular_frequency FREQ1 = 50265484%Q /\
  angular_frequency FREQ2 = 25132742%Q.
Proof. split; vm_compute; reflexivity. Qed.

Lemma freq1_value : freq1 = 50265484%R.
Proof.
  unfold freq1. rewrite (proj1 angular_frequency_values).
  unfold Q2R. cbn [Qnum Qden]. lra.
Qed.

Lemma freq2_value : freq2 = 25132742%R.
Proof.
  unfold freq2. rewrite (proj2 angular_frequency_values).
  unfold Q2R. cbn [Qnum Qden]. lra.
Qed.

Lemma tone1_hz_angle (t : R) : (2 * PI * tone1_hz * t = freq1 * t)%R.
Proof. unfold tone1_hz. pose proof PI_RGT_0. field. lra. Qed.

Lemma tone2_hz_angle (t : R) : (2 * PI * tone2_hz * t = freq2 * t)%R.
Proof. unfold tone2_hz. pose proof PI_RGT_0. field. lra. Qed.

Lemma synth_sample_two_tone (t : R) :
  synth_sample t
  = (to_short (two_tone_I ampl tone1_hz tone2_hz t),
     to_short (two_tone_Q ampl tone1_hz tone2_hz t)).
Proof.
  unfold synth_sample, two_tone_I, two_tone_Q.
  rewrite !tone1_hz_angle, !tone2_hz_angle. reflexivity.
Qed.

(** C4.  For every time [t] the synthesizer gives
    [I = A cos (2 pi f1 t) + A cos (2 pi f2 t)] and
    [Q = A sin (2 pi f1 t) + A sin (2 pi f2 t)] quantized to a signed 16-bit
    integer, with the fixed amplitude [A = 128] and the fixed frequencies
    [f1] and [f2] for which [2 pi f1 = 50265484] and [2 pi f2 = 25132742]
    (the [float] values of [freq1] and [freq2]).  The quantization drops
    the fraction and never wraps, the value staying within 256 of zero.
    Every slot of an outgoing block holds the sample synthesized at the
    time of that slot. *)
Theorem two_tone_synthesis (t : R) :
  ampl = 128%R
  /\ (2 * PI * tone1_hz = 50265484)%R
  /\ (2 * PI * tone2_hz = 25132742)%R
  /\ quantized (two_tone_I ampl tone1_hz tone2_hz t) (fst (synth_sample t))
  /\ quantized (two_tone_Q ampl tone1_hz tone2_hz t) (snd (synth_sample t))
  /\ -256 <= fst (synth_sample t) <= 256
  /\ -256 <= snd (synth_sample t) <= 256
  /\ forall (fs : Z) (slots : list sample) (i : R),
       map snd (tx_loop fs slots i)
       = map synth_sample (map fst (tx_loop fs slots i)).
Proof.
  destruct (to_short_exact _ (two_tone_I_bound tone1_hz tone2_hz t))
    as [HI HIr].
  destruct (to_short_exact _ (two_tone_Q_bound tone1_hz tone2_hz t))
    as [HQ HQr].
  split; [reflexivity|].
  split; [rewrite <- freq1_value; unfold tone1_hz;
          pose proof PI_RGT_0; field; lra|].
  split; [rewrite <- freq2_value; unfold tone2_hz;
          pose proof PI_RGT_0; field; lra|].
  rewrite synth_sample_two_tone. cbn [fst snd]. unfold ampl.
  split; [rewrite HI; apply Rtrunc_quantized|].
  split; [rewrite HQ; apply Rtrunc_quantized|].
  split; [lia|]. split; [lia|].
  apply tx_loop_samples.
Qed.

(** ** The sample counters *)

Section Counters.

Variable bs n : nat.
Variable pl : fftw_plan.
Variables rxc txc : stream_cfg.
Variable e : init_env.
Hypothesis Hrx : 0 < rx_sample_size e.
Hypothesis Htx : 0 < tx_sample_size e.

Lemma samples_moved_nonneg (ret : cycle_env -> Z) (ssz : Z)
    (cycles : list cycle_env) :
  0 <= samples_moved ret ssz cycles.
Proof. induction cycles as [|c rest IH]; simpl; lia. Qed.

(** A successful transfer can only add to a counter that has room. *)
Lemma count_grows (total nbytes ssz room : Z) :
  0 < ssz -> 0 <= nbytes -> 0 <= total -> 0 <= room ->
  total + (Z.max 0 (Z.quot nbytes ssz) + room) < 2 ^ 64 ->
  count total nbytes ssz = total + Z.quot nbytes ssz /\
  total <= count total nbytes ssz /\
  count total nbytes ssz + room < 2 ^ 64.
Proof.
  intros Hssz Hn Ht Hroom Hfit.
  assert (Hq : 0 <= Z.quot nbytes ssz) by (apply Z.quot_pos; lia).
  unfold count, wrap_size_t.
  rewrite Z.mod_small by lia. lia.
Qed.

Lemma run_statuses_monotone (cycles : list cycle_env) (k : nat)
    (l : locals) (w : world) :
  0 <= nrx l -> 0 <= ntx l ->
  nrx l + samples_moved refill_ret (rx_sample_size e) cycles < 2 ^ 64 ->
  ntx l + samples_moved push_ret (tx_sample_size e) cycles < 2 ^ 64 ->
  exists totals : list (Z * Z),
    statuses (result_trace (streaming bs n pl rxc txc e cycles k l w))
    = statuses (trace w) ++ totals /\
    non_decreasing (nrx l) (map fst totals) /\
    non_decreasing (ntx l) (map snd totals).
Proof.
  apply (streaming_cases bs n pl rxc txc e
           (fun cycles k l w r =>
              0 <= nrx l -> 0 <= ntx l ->
              nrx l + samples_moved refill_ret (rx_sample_size e) cycles
                < 2 ^ 64 ->
              ntx l + samples_moved push_ret (tx_sample_size e) cycles
                < 2 ^ 64 ->
              exists totals : list (Z * Z),
                statuses (result_trace r) = statuses (trace w) ++ totals /\
                non_decreasing (nrx l) (map fst totals) /\
                non_decreasing (ntx l) (map snd totals)));
    clear cycles k l w.
  - intros cycles k l w _ _ _ _ _. exists []. simpl.
    split; [|split; exact I]. rewrite statuses_app. f_equal.
    apply (setup_events_silent (closing_events ++ releases w ++ [Exit 0])).
    apply shutdown_tail_silent. reflexivity.
  - intros k l w _ _ _ _ _. exists []. simpl.
    split; [|split; exact I]. rewrite app_nil_r. reflexivity.
  - intros c rest k l w _ _ _ _ _ _. exists []. simpl.
    split; [|split; exact I]. rewrite statuses_app. f_equal.
    apply (setup_events_silent ([] ++ releases w ++ [Exit 0])).
    apply shutdown_tail_silent. reflexivity.
  - intros c rest k l w _ _ _ _ _ _ _. exists []. simpl.
    split; [|split; exact I]. rewrite statuses_app. simpl. f_equal.
    apply (setup_events_silent (releases w ++ [Exit 0])).
    apply (shutdown_tail_silent [] w). reflexivity.
  - intros c rest k l w _ _ _ _ _ _ _ _. exists []. simpl.
    split; [|split; exact I]. rewrite statuses_app. reflexivity.
  - intros c rest k l w r _ Hp Hr _ _ IH Hn0 Ht0 Hnfit Htfit.
    cbn [samples_moved fold_right] in Hnfit, Htfit.
    fold (samples_moved refill_ret (rx_sample_size e) rest) in Hnfit.
    fold (samples_moved push_ret (tx_sample_size e) rest) in Htfit.
    destruct (count_grows (nrx l) (refill_ret c) (rx_sample_size e)
                (samples_moved refill_ret (rx_sample_size e) rest))
      as (_ & Hnle & Hnroom);
      try assumption; try apply samples_moved_nonneg.
    destruct (count_grows (ntx l) (push_ret c) (tx_sample_size e)
                (samples_moved push_ret (tx_sample_size e) rest))
      as (_ & Htle & Htroom);
      try assumption; try apply samples_moved_nonneg.
    destruct IH as (totals & Hst & Hnmono & Htmono);
      cbn [next_locals nrx ntx]; try assumption; try lia.
    exists ((nrx (next_locals bs n pl txc e c l),
             ntx (next_locals bs n pl txc e c l)) :: totals).
    split; [|split].
    + rewrite Hst. simpl trace. rewrite statuses_app, <- app_assoc.
      reflexivity.
    + cbn [map fst non_decreasing]. split; [exact Hnle | exact Hnmono].
    + cbn [map snd non_decreasing]. split; [exact Htle | exact Htmono].
Qed.

Lemma run_statuses_totals (cycles : list cycle_env) (k : nat)
    (l : locals) (w : world) :
  0 <= nrx l -> 0 <= ntx l ->
  nrx l + samples_moved refill_ret (rx_sample_size e) cycles < 2 ^ 64 ->
  ntx l + samples_moved push_ret (tx_sample_size e) cycles < 2 ^ 64 ->
  let r := streaming bs n pl rxc txc e cycles k l w in
  (k <= result_cycles r)%nat /\
  statuses (result_trace r)
  = statuses (trace w) ++
    take (result_cycles r - k) (running_totals e (nrx l) (ntx l) cycles).
Proof.
  simpl.
  apply (streaming_cases bs n pl rxc txc e
           (fun cycles k l w r =>
              0 <= nrx l -> 0 <= ntx l ->
              nrx l + samples_moved refill_ret (rx_sample_size e) cycles
                < 2 ^ 64 ->
              ntx l + samples_moved push_ret (tx_sample_size e) cycles
                < 2 ^ 64 ->
              (k <= result_cycles r)%nat /\
              statuses (result_trace r)
              = statuses (trace w) ++
                take (result_cycles r - k)
                     (running_totals e (nrx l) (ntx l) cycles)));
    clear cycles k l w.
  - intros cycles k l w _ _ _ _ _. simpl. split; [lia|].
    rewrite Nat.sub_diag, take_0, statuses_app. simpl. f_equal.
    apply (setup_events_silent (closing_events ++ releases w ++ [Exit 0])).
    apply shutdown_tail_silent. reflexivity.
  - intros k l w _ _ _ _ _. simpl. split; [lia|].
    rewrite Nat.sub_diag. simpl. rewrite app_nil_r. reflexivity.
  - intros c rest k l w _ _ _ _ _ _. simpl. split; [lia|].
    rewrite Nat.sub_diag, take_0, statuses_app. simpl. f_equal.
    apply (setup_events_silent ([] ++ releases w ++ [Exit 0])).
    apply shutdown_tail_silent. reflexivity.
  - intros c rest k l w _ _ _ _ _ _ _. simpl. split; [lia|].
    rewrite Nat.sub_diag, take_0, statuses_app. simpl. f_equal.
    apply (setup_events_silent (releases w ++ [Exit 0])).
    apply (shutdown_tail_silent [] w). reflexivity.
  - intros c rest k l w _ _ _ _ _ _ _ _. simpl. split; [lia|].
    rewrite Nat.sub_diag, take_0, statuses_app. reflexivity.
  - intros c rest k l w r _ Hp Hr _ _ IH Hn0 Ht0 Hnfit Htfit.
    cbn [samples_moved fold_right] in Hnfit, Htfit.
    fold (samples_moved refill_ret (rx_sample_size e) rest) in Hnfit.
    fold (samples_moved push_ret (tx_sample_size e) rest) in Htfit.
    destruct (count_grows (nrx l) (refill_ret c) (rx_sample_size e)
                (samples_moved refill_ret (rx_sample_size e) rest))
      as (Hneq & Hnle & Hnroom);
      try assumption; try apply samples_moved_nonneg.
    destruct (count_grows (ntx l) (push_ret c) (tx_sample_size e)
                (samples_moved push_ret (tx_sample_size e) rest))
      as (Hteq & Htle & Htroom);
      try assumption; try apply samples_moved_nonneg.
    destruct IH as [Hk Hst];
      cbn [next_locals nrx ntx]; try assumption; try lia.
    split; [lia|].
    rewrite Hst. simpl trace. rewrite statuses_app, <- app_assoc.
    f_equal.
    replace (result_cycles r - k)%nat with (S (result_cycles r - S k))
      by lia.
    cbn [running_totals take]. cbn [statuses cycle_events flat_map app].
    cbn [next_locals nrx ntx]. rewrite Hneq, Hteq. reflexivity.
Qed.

Local Abbreviation B := (Z.of_nat bs).

Lemma run_statuses_exact (cycles : list cycle_env) (k : nat)
    (l : locals) (w : world) :
  Forall (fun c => push_ret c = B * tx_sample_size e /\
                   refill_ret c = B * rx_sample_size e) cycles ->
  0 <= nrx l -> 0 <= ntx l ->
  nrx l + Z.of_nat (length cycles) * B < 2 ^ 64 ->
  ntx l + Z.of_nat (length cycles) * B < 2 ^ 64 ->
  let r := streaming bs n pl rxc txc e cycles k l w in
  (k <= result_cycles r)%nat /\
  statuses (result_trace r)
  = statuses (trace w) ++
    map (fun j : nat => (nrx l + Z.of_nat (S j) * B,
                         ntx l + Z.of_nat (S j) * B))
        (seq 0 (result_cycles r - k)).
Proof.
  simpl.
  apply (streaming_cases bs n pl rxc txc e
           (fun cycles k l w r =>
              Forall (fun c => push_ret c = B * tx_sample_size e /\
                               refill_ret c = B * rx_sample_size e)
                     cycles ->
              0 <= nrx l -> 0 <= ntx l ->
              nrx l + Z.of_nat (length cycles) * B < 2 ^ 64 ->
              ntx l + Z.of_nat (length cycles) * B < 2 ^ 64 ->
              (k <= result_cycles r)%nat /\
              statuses (result_trace r)
              = statuses (trace w) ++
                map (fun j : nat => (nrx l + Z.of_nat (S j) * B,
                                     ntx l + Z.of_nat (S j) * B))
                    (seq 0 (result_cycles r - k))));
    clear cycles k l w.
  - intros cycles k l w _ _ _ _ _ _. simpl. split; [lia|].
    rewrite Nat.sub_diag, statuses_app. simpl. f_equal.
    apply (setup_events_silent (closing_events ++ releases w ++ [Exit 0])).
    apply shutdown_tail_silent. reflexivity.
  - intros k l w _ _ _ _ _ _. simpl. split; [lia|].
    rewrite Nat.sub_diag. simpl. rewrite app_nil_r. reflexivity.
  - intros c rest k l w _ _ _ _ _ _ _. simpl. split; [lia|].
    rewrite Nat.sub_diag, statuses_app. simpl. f_equal.
    apply (setup_events_silent ([] ++ releases w ++ [Exit 0])).
    apply shutdown_tail_silent. reflexivity.
  - intros c rest k l w _ _ _ _ _ _ _ _. simpl. split; [lia|].
    rewrite Nat.sub_diag, statuses_app. simpl. f_equal.
    apply (setup_events_silent (releases w ++ [Exit 0])).
    apply (shutdown_tail_silent [] w). reflexivity.
  - intros c rest k l w _ _ _ _ _ _ _ _ _. simpl. split; [lia|].
    rewrite Nat.sub_diag, statuses_app. reflexivity.
  - intros c rest k l w r _ _ _ _ _ IH Hall Hn0 Ht0 Hnfit Htfit.
    apply Forall_cons in Hall. destruct Hall as [[Hpush Hrefill] Hall].
    cbn [length] in Hnfit, Htfit.
    assert (HB : 0 <= B) by lia.
    assert (Hn' : nrx (next_locals bs n pl txc e c l) = nrx l + B).
    { cbn [next_locals nrx]. unfold count, wrap_size_t.
      rewrite Hrefill, Z.quot_mul by lia. apply Z.mod_small. nia. }
    assert (Ht' : ntx (next_locals bs n pl txc e c l) = ntx l + B).
    { cbn [next_locals ntx]. unfold count, wrap_size_t.
      rewrite Hpush, Z.quot_mul by lia. apply Z.mod_small. nia. }
    destruct IH as [Hk Hst]; try assumption; try nia.
    split; [lia|].
    rewrite Hst. simpl trace. rewrite statuses_app, <- app_assoc.
    f_equal.
    replace (result_cycles r - k)%nat with (S (result_cycles r - S k))
      by lia.
    cbn [seq map]. cbn [statuses cycle_events flat_map app].
    rewrite Hn', Ht'. f_equal.
    + f_equal; lia.
    + rewrite <- seq_shift, map_map. apply map_ext. intros j.
      f_equal; lia.
Qed.

End Counters.

Lemma samples_moved_full (ret : cycle_env -> Z) (ssz B : Z)
    (cycles : list cycle_env) :
  0 < ssz -> 0 <= B ->
  Forall (fun c => ret c = B * ssz) cycles ->
  samples_moved ret ssz cycles = Z.of_nat (length cycles) * B.
Proof.
  intros Hssz HB. induction 1 as [|c rest Hc _ IH]; [reflexivity|].
  cbn [samples_moved fold_right length].
  fold (samples_moved ret ssz rest).
  rewrite IH, Hc, Z.quot_mul by lia. lia.
Qed.

Lemma non_decreasing_nil_trace (tr : list event) :
  forallb is_setup_event tr = true ->
  non_decreasing 0 (map fst (statuses tr)) /\
  non_decreasing 0 (map snd (statuses tr)).
Proof.
  intros Hs. destruct (setup_events_silent tr Hs) as (_ & -> & _).
  split; exact I.
Qed.

(** The totals that [main] prints, one line per completed iteration. *)
Lemma main_statuses (e : init_env) (cycles : list cycle_env) :
  0 < rx_sample_size e -> 0 < tx_sample_size e ->
  samples_moved refill_ret (rx_sample_size e) cycles < 2 ^ 64 ->
  samples_moved push_ret (tx_sample_size e) cycles < 2 ^ 64 ->
  statuses (result_trace (main e cycles))
  = take (result_cycles (main e cycles)) (running_totals e 0 0 cycles).
Proof.
  intros Hrx Htx Hnfit Htfit.
  destruct (main_cases e cycles)
    as [(tr & -> & _ & _ & Hs)|[(tr & -> & Hin)|[-> _]]].
  - cbn [result_trace result_cycles]. rewrite take_0.
    apply setup_events_silent, Hs.
  - cbn [result_trace result_cycles]. rewrite take_0.
    apply setup_events_silent, setup_traces_silent, Hin.
  - destruct (run_statuses_totals buffer_size fft_size plan rxcfg txcfg e
                Hrx Htx cycles 0 (locals0 e)
                (world_ready (sigint_in_init e) ready_trace))
      as [_ Hst];
      try (cbn [locals0 nrx ntx]; lia).
    rewrite Hst, Nat.sub_0_r. reflexivity.
Qed.

(** C5 (as amended).  With sample widths that are positive and counters
    that have not run past the 64 bits of [size_t], the RX and TX totals
    that [main] prints after each completed iteration are the running sums
    of the bytes moved divided by the sample width, and never go down from
    one iteration to the next; and when every push and refill moves a whole
    block, the totals printed after the [N]-th completed iteration are
    both [N] times the block size. *)
Theorem rx_tx_counters (e : init_env) (cycles : list cycle_env) :
  0 < rx_sample_size e -> 0 < tx_sample_size e ->
  samples_moved refill_ret (rx_sample_size e) cycles < 2 ^ 64 ->
  samples_moved push_ret (tx_sample_size e) cycles < 2 ^ 64 ->
  statuses (result_trace (main e cycles))
  = take (result_cycles (main e cycles)) (running_totals e 0 0 cycles) /\
  non_decreasing 0 (map fst (statuses (result_trace (main e cycles)))) /\
  non_decreasing 0 (map snd (statuses (result_trace (main e cycles)))) /\
  (Forall (full_transfer e) cycles ->
   statuses (result_trace (main e cycles))
   = map (fun j : nat => (Z.of_nat (S j) * Z.of_nat buffer_size,
                          Z.of_nat (S j) * Z.of_nat buffer_size))
         (seq 0 (result_cycles (main e cycles)))).
Proof.
  intros Hrx Htx Hnfit Htfit.
  split; [apply main_statuses; assumption|].
  destruct (main_cases e cycles)
    as [(tr & -> & _ & _ & Hs)|[(tr & -> & Hin)|[-> _]]].
  - cbn [result_trace result_cycles seq map].
    destruct (non_decreasing_nil_trace tr Hs) as [H1 H2].
    split; [exact H1|]. split; [exact H2|].
    intros _. apply setup_events_silent, Hs.
  - cbn [result_trace result_cycles seq map].
    pose proof (setup_traces_silent tr Hin) as Hs.
    destruct (non_decreasing_nil_trace tr Hs) as [H1 H2].
    split; [exact H1|]. split; [exact H2|].
    intros _. apply setup_events_silent, Hs.
  - destruct (run_statuses_monotone buffer_size fft_size plan rxcfg txcfg e
                Hrx Htx cycles 0 (locals0 e)
                (world_ready (sigint_in_init e) ready_trace))
      as (totals & Hst & Hnmono & Htmono);
      try (cbn [locals0 nrx ntx]; lia).
    split; [rewrite Hst; exact Hnmono|].
    split; [rewrite Hst; exact Htmono|].
    intros Hfull.
    assert (Hpush : Forall (fun c => push_ret c
                                     = Z.of_nat buffer_size * tx_sample_size e)
                           cycles).
    { eapply Forall_impl; [exact Hfull|]. intros c [H _]. exact H. }
    assert (Hrefill : Forall (fun c => refill_ret c
                                       = Z.of_nat buffer_size * rx_sample_size e)
                             cycles).
    { eapply Forall_impl; [exact Hfull|]. intros c [_ H]. exact H. }
    rewrite (samples_moved_full refill_ret (rx_sample_size e)
               (Z.of_nat buffer_size)) in Hnfit by (lia || assumption).
    rewrite (samples_moved_full push_ret (tx_sample_size e)
               (Z.of_nat buffer_size)) in Htfit by (lia || assumption).
    destruct (run_statuses_exact buffer_size fft_size plan rxcfg txcfg e
                Hrx Htx cycles 0 (locals0 e)
                (world_ready (sigint_in_init e) ready_trace))
      as [_ Hexact];
      try (cbn [locals0 nrx ntx]; lia).
    { exact Hfull. }
    rewrite Hexact, Nat.sub_0_r. reflexivity.
Qed.

Lemma full_transfer_cycle_ok : full_transfer env_ok cycle_ok.
Proof. unfold full_transfer. rewrite buffer_size_Z. split; reflexivity. Qed.

Lemma rx_tx_counters_witness :
  0 < rx_sample_size env_ok /\ 0 < tx_sample_size env_ok /\
  samples_moved refill_ret (rx_sample_size env_ok) [cycle_ok; cycle_ok]
    < 2 ^ 64 /\
  samples_moved push_ret (tx_sample_size env_ok) [cycle_ok; cycle_ok]
    < 2 ^ 64 /\
  Forall (full_transfer env_ok) [cycle_ok; cycle_ok] /\
  statuses (result_trace (main env_ok [cycle_ok; cycle_ok]))
  = map (fun j : nat => (Z.of_nat (S j) * Z.of_nat buffer_size,
                         Z.of_nat (S j) * Z.of_nat buffer_size))
        (seq 0 (result_cycles (main env_ok [cycle_ok; cycle_ok]))).
Proof.
  assert (Hfull : Forall (full_transfer env_ok) [cycle_ok; cycle_ok])
    by (repeat constructor; exact full_transfer_cycle_ok).
  split; [reflexivity|]. split; [reflexivity|].
  split; [reflexivity|]. split; [reflexivity|].
  split; [exact Hfull|].
  exact (proj2 (proj2 (proj2 (rx_tx_counters env_ok [cycle_ok; cycle_ok]
                                eq_refl eq_refl eq_refl eq_refl))) Hfull).
Defined.

(** C5 as the document words it fails when a refill succeeds with fewer
    bytes than a whole block: both transfers of both iterations succeed,
    two iterations complete, and the RX total printed after the second is
    1049176, not twice the block size. *)
Lemma short_refill_counts_less :
  transport_ok cycle_ok = true /\ transport_ok cycle_short = true /\
  result_cycles (main env_ok [cycle_ok; cycle_short]) = 2%nat /\
  statuses (result_trace (main env_ok [cycle_ok; cycle_short]))
  = [(1048576, 1048576); (1049176, 2097152)] /\
  1049176 <> 2 * Z.of_nat buffer_size.
Proof.
  split; [reflexivity|]. split; [reflexivity|]. split; [reflexivity|].
  split; [|rewrite buffer_size_Z; lia].
  rewrite main_statuses by reflexivity. reflexivity.
Qed.

(** ** How a run ends *)

Lemma transport_releases_app (a b : list event) :
  transport_releases (a ++ b) = transport_releases a ++ transport_releases b.
Proof. apply flat_map_app. Qed.

Lemma acquired_app (h : handle) (a b : list event) :
  acquired h (a ++ b) = acquired h a || acquired h b.
Proof. apply existsb_app. Qed.

Lemma released_app (h : handle) (a b : list event) :
  released h (a ++ b) = released h a || released h b.
Proof. apply existsb_app. Qed.

Lemma termination_of_snoc (tr : list event) (ev : event) :
  termination_of (tr ++ [ev])
  = match ev with
    | Exit code => Some (Exited code)
    | Abort => Some Aborted
    | Fault => Some Faulted
    | _ => None
    end.
Proof. unfold termination_of. rewrite last_snoc. reflexivity. Qed.

Section Endings.

Variable bs n : nat.
Variable pl : fftw_plan.
Variables rxc txc : stream_cfg.
Variable e : init_env.

Lemma releases_signalled (c : cycle_env) (t : list event) (w : world) :
  releases (with_trace t (signalled c w)) = releases w.
Proof. unfold signalled. destruct (sigint_at c); reflexivity. Qed.

Lemma cycle_events_keep_transport (c : cycle_env) (l : locals) :
  transport_releases (cycle_events bs n pl rxc txc e c l) = [].
Proof. reflexivity. Qed.

(** A run that ends does so in [shutdown], after events that release
    nothing of the transport, or in a division by a zero sample width. *)
Lemma run_halts (cycles : list cycle_env) (k : nat) (l : locals)
    (w : world) (k' : nat) (tr : list event) :
  streaming bs n pl rxc txc e cycles k l w = Halted k' tr ->
  (exists mid : list event,
      tr = trace w ++ mid ++ releases w ++ [Exit 0] /\
      transport_releases mid = []) \/
  ((rx_sample_size e = 0 \/ tx_sample_size e = 0) /\
   exists body : list event, tr = body ++ [Fault]).
Proof.
  revert k' tr.
  apply (streaming_cases bs n pl rxc txc e
           (fun cycles k l w r =>
              forall k' tr, r = Halted k' tr ->
              (exists mid : list event,
                  tr = trace w ++ mid ++ releases w ++ [Exit 0] /\
                  transport_releases mid = []) \/
              ((rx_sample_size e = 0 \/ tx_sample_size e = 0) /\
               exists body : list event, tr = body ++ [Fault])));
    clear cycles k l w.
  - intros cycles k l w _ k' tr [= _ <-]. left.
    exists closing_events. split; reflexivity.
  - intros k l w _ k' tr [=].
  - intros c rest k l w _ _ k' tr [= _ <-]. left.
    exists []. split; reflexivity.
  - intros c rest k l w _ _ _ k' tr [= _ <-]. left.
    exists [Push (txdata l)]. split; reflexivity.
  - intros c rest k l w _ _ _ Hz k' tr [= _ <-]. right.
    split; [exact Hz|].
    exists (trace w ++ [Push (txdata l); Refill (rx_samples bs c)]).
    rewrite <- app_assoc. reflexivity.
  - intros c rest k l w r _ _ _ _ _ IH k' tr Hr.
    destruct (IH k' tr Hr) as [(mid & -> & Hmid)|Hfault];
      [left | right; exact Hfault].
    exists (cycle_events bs n pl rxc txc e c l ++ mid).
    rewrite releases_signalled. simpl trace. split.
    + rewrite <- !app_assoc. reflexivity.
    + rewrite transport_releases_app, Hmid. reflexivity.
Qed.

End Endings.

Lemma push_error_trace :
  main env_ok [cycle_push_error]
  = Halted 0 (ready_trace ++
              [ Release (Buf RX); Release (Buf TX);
                Release (Chan RX false); Release (Chan RX true);
                Release (Chan TX false); Release (Chan TX true);
                Release Ctx; Exit 0 ]).
Proof. reflexivity. Qed.

(** C6 (as amended).  A run of [main] that terminates does so in one of
    three ways: [exit(0)] out of [shutdown], [abort()] out of a failed
    [ASSERT], or a division by a zero sample width.  When no [ASSERT] of the
    set-up fails and the sample widths are not zero, every termination (a
    cancellation, a failed push, a failed refill, a refused attribute
    write, a buffer that cannot be created) is an exit with status 0. *)
Theorem exit_status_zero (e : init_env) (cycles : list cycle_env) (k : nat)
    (tr : list event) :
  main e cycles = Halted k tr ->
  (asserts_hold e = true ->
   rx_sample_size e <> 0 -> tx_sample_size e <> 0 ->
   termination_of tr = Some (Exited 0)) /\
  (termination_of tr = Some (Exited 0) \/
   termination_of tr = Some Aborted \/
   termination_of tr = Some Faulted).
Proof.
  intros Hmain.
  destruct (main_cases e cycles)
    as [(tr' & Hm & Hlast & Hfail & _)|[(tr' & Hm & Hin)|[Hm _]]];
    rewrite Hm in Hmain.
  - injection Hmain as _ <-.
    assert (Hab : termination_of tr' = Some Aborted)
      by (unfold termination_of; rewrite Hlast; reflexivity).
    split; [intros Hok; congruence | right; left; exact Hab].
  - injection Hmain as _ <-.
    assert (Hex : termination_of tr' = Some (Exited 0))
      by (simpl in Hin; destruct Hin as [<-|[<-|[<-|[]]]]; reflexivity).
    split; [intros _ _ _; exact Hex | left; exact Hex].
  - destruct (run_halts _ _ _ _ _ _ _ _ _ _ _ _ Hmain)
      as [(mid & -> & _)|[Hz (body & ->)]].
    + assert (Hex : termination_of
                      (trace (world_ready (sigint_in_init e) ready_trace) ++
                       mid ++
                       releases (world_ready (sigint_in_init e) ready_trace) ++
                       [Exit 0]) = Some (Exited 0)).
      { rewrite !app_assoc. apply termination_of_snoc. }
      split; [intros _ _ _; exact Hex | left; exact Hex].
    + rewrite termination_of_snoc.
      split; [intros _ Hrx Htx; destruct Hz; contradiction|].
      right; right; reflexivity.
Qed.

Lemma exit_status_zero_witness :
  main env_ok [cycle_push_error]
  = Halted 0 (ready_trace ++
              [ Release (Buf RX); Release (Buf TX);
                Release (Chan RX false); Release (Chan RX true);
                Release (Chan TX false); Release (Chan TX true);
                Release Ctx; Exit 0 ]) /\
  asserts_hold env_ok = true /\
  rx_sample_size env_ok <> 0 /\ tx_sample_size env_ok <> 0 /\
  termination_of (ready_trace ++
              [ Release (Buf RX); Release (Buf TX);
                Release (Chan RX false); Release (Chan RX true);
                Release (Chan TX false); Release (Chan TX true);
                Release Ctx; Exit 0 ]) = Some (Exited 0).
Proof.
  split; [reflexivity|]. split; [reflexivity|].
  split; [discriminate|]. split; [discriminate|].
  apply (exit_status_zero env_ok [cycle_push_error] 0);
    [reflexivity | reflexivity | discriminate | discriminate].
Defined.

(** C6 as the document words it fails when the configuration of the RX
    side does not find its port: [ASSERT] calls [abort()], the process is
    killed by SIGABRT and does not exit with status 0. *)
Lemma failed_configuration_aborts :
  main env_no_port [] = Halted 0 [Acquire Ctx; Abort] /\
  termination_of [Acquire Ctx; Abort] <> Some (Exited 0).
Proof. split; [reflexivity | discriminate]. Qed.

(** C7 (as amended).  On every path of [main] that ends in [shutdown] (a
    failed push, a failed refill, a refused attribute write, a buffer that
    cannot be created, and the cancellation) the transport is given back
    once and in the order of [shutdown]: of the RX buffer, the TX buffer,
    the four channels and the context, exactly those that had been
    acquired are released, each once, the RX buffer before the TX buffer;
    the context is always among them and its release is the last thing
    before [exit(0)]. *)
Theorem shutdown_releases_transport (e : init_env)
    (cycles : list cycle_env) (k : nat) (tr : list event) :
  main e cycles = Halted k tr ->
  termination_of tr = Some (Exited 0) ->
  transport_releases tr
  = List.filter (fun h => acquired h tr) transport_handles /\
  released Ctx tr = true /\
  exists body : list event, tr = body ++ [Release Ctx; Exit 0].
Proof.
  intros Hmain Hexit.
  destruct (main_cases e cycles)
    as [(tr' & Hm & Hlast & _)|[(tr' & Hm & Hin)|[Hm _]]];
    rewrite Hm in Hmain.
  - injection Hmain as _ <-.
    unfold termination_of in Hexit. rewrite Hlast in Hexit. discriminate.
  - injection Hmain as _ <-. simpl in Hin.
    destruct Hin as [<-|[<-|[<-|[]]]].
    + split; [reflexivity|]. split; [reflexivity|].
      exists [Acquire Ctx]. reflexivity.
    + split; [reflexivity|]. split; [reflexivity|].
      eexists (_ :: _ :: _ :: _ :: _ :: _ :: _ :: _ :: _ :: []).
      reflexivity.
    + split; [reflexivity|]. split; [reflexivity|].
      eexists (_ :: _ :: _ :: _ :: _ :: _ :: _ :: _ :: _ :: _ :: _ :: []).
      reflexivity.
  - destruct (run_halts _ _ _ _ _ _ _ _ _ _ _ _ Hmain)
      as [(mid & -> & Hmid)|[_ (body & ->)]].
    + cbn [trace world_ready].
      change (releases (world_ready (sigint_in_init e) ready_trace))
        with (map Release transport_handles).
      split; [|split].
      * rewrite !transport_releases_app, Hmid.
        cbn [transport_handles List.filter]. rewrite !acquired_app.
        reflexivity.
      * rewrite !released_app.
        replace (released Ctx (map Release transport_handles)) with true
          by reflexivity.
        rewrite !orb_true_r. reflexivity.
      * exists (ready_trace ++ mid ++
                [ Release (Buf RX); Release (Buf TX);
                  Release (Chan RX false); Release (Chan RX true);
                  Release (Chan TX false); Release (Chan TX true) ]).
        rewrite <- !app_assoc. reflexivity.
    + rewrite termination_of_snoc in Hexit. discriminate.
Qed.

Lemma shutdown_releases_transport_witness :
  main env_ok [cycle_push_error]
  = Halted 0 (ready_trace ++ map Release transport_handles ++ [Exit 0]) /\
  termination_of (ready_trace ++ map Release transport_handles ++ [Exit 0])
  = Some (Exited 0) /\
  transport_releases
    (ready_trace ++ map Release transport_handles ++ [Exit 0])
  = List.filter
      (fun h => acquired h
                  (ready_trace ++ map Release transport_handles ++ [Exit 0]))
      transport_handles.
Proof.
  split; [reflexivity|]. split; [reflexivity|].
  apply (shutdown_releases_transport env_ok [cycle_push_error] 0);
    reflexivity.
Defined.

(** C7 as the document words it fails on a failed push: the plan and the
    arrays of the transform, acquired during the set-up, are not released
    before the exit, and the incoming buffer is released before the
    outgoing one. *)
Lemma write_error_leaves_fft :
  main env_ok [cycle_push_error]
  = Halted 0 (ready_trace ++ map Release transport_handles ++ [Exit 0]) /\
  ~ full_release_sequence
      (ready_trace ++ map Release transport_handles ++ [Exit 0]) /\
  released_before (Buf RX) (Buf TX)
    (ready_trace ++ map Release transport_handles ++ [Exit 0]).
Proof.
  split; [reflexivity|]. split.
  - intros [Hleak _]. specialize (Hleak Plan eq_refl). discriminate Hleak.
  - exists 13%nat, 14%nat. repeat split. lia.
Qed.

(** ** Cancellation *)

Lemma init_ok_run (e : init_env) :
  init_ok e = true ->
  init e world0 = Ret (locals0 e) (world_ready false ready_trace).
Proof.
  intros Hok. unfold init_ok in Hok.
  do 5 (apply andb_prop in Hok; destruct Hok as [Hok ?]).
  destruct (init_cases e) as [(tr & _ & _ & Hfail & _)|[(tr & Hhalt & Hin)|[Hrun _]]].
  - congruence.
  - exfalso. revert Hhalt Hin.
    destruct e as [cc dc phy txd rxd [rp r1 r2 r3 rl r4] [tp t1 t2 t3 tl t4]
                   [a1 a2] [b1 b2] [c1 c2] [d1 d2] rb tb ti ii oi wi rs ts sg].
    unfold asserts_hold, cfg_asserts_hold, cfg_writes_ok, chan_found in *.
    cbn [context_created devices_count phy_dev_found tx_dev_found
         rx_dev_found rx_cfg_env tx_cfg_env rx0_i_env rx0_q_env tx0_i_env
         tx0_q_env rxbuf_created txbuf_created sigint_in_init
         phy_chan_found rf_port_select_ret rf_bandwidth_ret
         sampling_frequency_ret lo_chan_found frequency_ret
         by_voltage by_altvoltage] in *.
    repeat match goal with
           | H : _ && _ = true |- _ =>
               apply andb_prop in H; destruct H as [? ?]
           end.
    repeat match goal with
           | H : (0 <=? ?v) = true |- _ =>
               apply Z.leb_le, Z.ltb_ge in H
           end.
    subst.
    unfold init, cfg_ad9361_streaming_ch, get_phy_chan, get_lo_chan,
      get_ad9361_phy, get_ad9361_stream_dev, get_ad9361_stream_ch, wr_ch,
      errchk, create_buffer, ASSERT, bind, emit, update, handle_sig,
      shutdown, ret, world0.
    cbn [context_created devices_count phy_dev_found tx_dev_found
         rx_dev_found rx_cfg_env tx_cfg_env rx0_i_env rx0_q_env tx0_i_env
         tx0_q_env rxbuf_created txbuf_created sigint_in_init
         phy_chan_found rf_port_select_ret rf_bandwidth_ret
         sampling_frequency_ret lo_chan_found frequency_ret
         by_voltage by_altvoltage].
    repeat match goal with
           | H : _ = _ |- _ => rewrite H
           end.
    simpl.
    assert (Hor : forall x y : bool, (if negb x then y else x) = x || y)
      by (intros [] []; reflexivity).
    rewrite !Hor.
    repeat match goal with
           | H : _ || _ = true |- _ => rewrite H
           end.
    destruct sg; [discriminate|].
    simpl. intros [=].
  - rewrite Hrun. destruct (sigint_in_init e); [discriminate | reflexivity].
Qed.

Section Cancellation.

Variable e : init_env.
Hypothesis Hrx : rx_sample_size e <> 0.
Hypothesis Htx : tx_sample_size e <> 0.

Local Abbreviation run := (streaming buffer_size fft_size plan rxcfg txcfg e).

Lemma transport_ok_spec (c : cycle_env) :
  transport_ok c = true ->
  (push_ret c <? 0) = false /\ (refill_ret c <? 0) = false.
Proof.
  unfold transport_ok. intros H. apply andb_prop in H.
  destruct H as [Hp Hr]. apply Z.leb_le in Hp, Hr.
  split; apply Z.ltb_ge; assumption.
Qed.

Lemma sizes_nonzero :
  (rx_sample_size e =? 0) || (tx_sample_size e =? 0) = false.
Proof.
  apply orb_false_intro; apply Z.eqb_neq; assumption.
Qed.

(** An iteration without error, SIGINT arriving at [p] or not at all. *)
Lemma cycle_completes (p : option phase) (c : cycle_env) (l : locals)
    (stopped : bool) (tr : list event) :
  transport_ok c = true ->
  cycle buffer_size fft_size plan rxcfg txcfg e (at_phase p c) l
        (world_ready stopped tr)
  = Ret (next_locals buffer_size fft_size plan txcfg e c l)
        (world_ready (match p with Some _ => true | None => stopped end)
           (tr ++ cycle_events buffer_size fft_size plan rxcfg txcfg e c l)).
Proof.
  intros Hok. destruct (transport_ok_spec c Hok) as [Hp Hr].
  rewrite cycle_run. cbn [at_phase push_ret refill_ret].
  rewrite Hp, Hr, sizes_nonzero.
  destruct p; reflexivity.
Qed.

Lemma at_phase_quiet (c : cycle_env) :
  quiet c = true -> at_phase None c = c.
Proof.
  unfold quiet, at_phase. destruct c as [a b f len [p|]]; simpl;
    [discriminate | reflexivity].
Qed.

(** Iterations without error or signal are all run, one after another. *)
Lemma run_quiet_prefix (pre rest : list cycle_env) :
  forall (k : nat) (l : locals) (tr : list event),
  forallb (fun c => transport_ok c && quiet c) pre = true ->
  run (pre ++ rest) k l (world_ready false tr)
  = run rest (k + length pre)%nat (loop_locals e pre l)
        (world_ready false (tr ++ loop_events e pre l)).
Proof.
  induction pre as [|c pre IH]; intros k l tr Hpre.
  - cbn [app length loop_locals loop_events].
    rewrite Nat.add_0_r, app_nil_r. reflexivity.
  - cbn [forallb] in Hpre. apply andb_prop in Hpre.
    destruct Hpre as [Hc Hpre]. apply andb_prop in Hc.
    destruct Hc as [Hok Hquiet].
    cbn [app streaming stop world_ready].
    rewrite <- (at_phase_quiet c Hquiet) at 1.
    rewrite cycle_completes by exact Hok.
    rewrite IH by exact Hpre.
    cbn [length loop_locals loop_events].
    rewrite <- app_assoc.
    replace (S k + length pre)%nat with (k + S (length pre))%nat by lia.
    reflexivity.
Qed.

Lemma loop_locals_app (a b : list cycle_env) (l : locals) :
  loop_locals e (a ++ b) l = loop_locals e b (loop_locals e a l).
Proof.
  revert l. induction a as [|c a IH]; intros l; [reflexivity|].
  cbn [app loop_locals]. apply IH.
Qed.

Lemma loop_events_app (a b : list cycle_env) (l : locals) :
  loop_events e (a ++ b) l
  = loop_events e a l ++ loop_events e b (loop_locals e a l).
Proof.
  revert l. induction a as [|c a IH]; intros l; [reflexivity|].
  cbn [app loop_events loop_locals]. rewrite IH, app_assoc. reflexivity.
Qed.

Lemma loop_events_published (cycles : list cycle_env) (l : locals) :
  length (published (loop_events e cycles l)) = length cycles /\
  length (synth_times (loop_events e cycles l)) = length cycles.
Proof.
  revert l. induction cycles as [|c cycles IH]; intros l;
    [split; reflexivity|].
  cbn [loop_events]. rewrite published_app, synth_times_app, !length_app.
  destruct (IH (next_locals buffer_size fft_size plan txcfg e c l))
    as [-> ->].
  split; reflexivity.
Qed.

(** The iteration in which SIGINT arrives is run to its end; the test
    of the flag that follows it leaves the loop. *)
Lemma run_cancelled (p : phase) (c : cycle_env) (post : list cycle_env)
    (k : nat) (l : locals) (tr : list event) :
  transport_ok c = true ->
  run (at_phase (Some p) c :: post) k l (world_ready false tr)
  = Halted (S k)
      (tr ++ cycle_events buffer_size fft_size plan rxcfg txcfg e c l ++
       shutting_down).
Proof.
  intros Hok. cbn [streaming stop world_ready].
  rewrite cycle_completes by exact Hok.
  destruct post as [|c' post]; cbn [streaming stop world_ready];
    rewrite after_loop_run; cbn [trace world_ready];
    rewrite <- app_assoc; reflexivity.
Qed.

End Cancellation.

(** C8.  When the set-up has succeeded and SIGINT arrives during an
    iteration, at any of its stages, after [length pre] iterations have
    been completed, that iteration is carried through in full, with the
    same events as if no signal had arrived; it is the one iteration that
    completes after the flag is set, no further one is started, whatever
    the transport would have done next; the process then runs the release
    sequence and exits with status 0. *)
Theorem cancellation_mid_cycle (e : init_env) (pre : list cycle_env)
    (c : cycle_env) (p : phase) (post : list cycle_env) :
  init_ok e = true ->
  rx_sample_size e <> 0 -> tx_sample_size e <> 0 ->
  forallb (fun c => transport_ok c && quiet c) pre = true ->
  transport_ok c = true ->
  main e pre
  = Running (length pre) (loop_locals e pre (locals0 e))
      (world_ready false (ready_trace ++ loop_events e pre (locals0 e))) /\
  main e (pre ++ at_phase (Some p) c :: post)
  = Halted (S (length pre))
      (ready_trace ++ loop_events e (pre ++ [c]) (locals0 e) ++
       shutting_down) /\
  main e (pre ++ [at_phase None c])
  = Running (S (length pre)) (loop_locals e (pre ++ [c]) (locals0 e))
      (world_ready false
         (ready_trace ++ loop_events e (pre ++ [c]) (locals0 e))) /\
  termination_of
    (ready_trace ++ loop_events e (pre ++ [c]) (locals0 e) ++ shutting_down)
  = Some (Exited 0) /\
  length (published (loop_events e (pre ++ [c]) (locals0 e)))
  = S (length pre) /\
  length (synth_times (loop_events e (pre ++ [c]) (locals0 e)))
  = S (length pre).
Proof.
  intros Hinit Hrx Htx Hpre Hok.
  unfold main. rewrite (init_ok_run e Hinit).
  split; [|split; [|split; [|split]]].
  - rewrite <- (app_nil_r pre) at 1.
    rewrite run_quiet_prefix by assumption. reflexivity.
  - rewrite run_quiet_prefix by assumption.
    rewrite run_cancelled by assumption.
    rewrite loop_events_app. cbn [loop_events].
    rewrite app_nil_r, <- !app_assoc, Nat.add_0_l. reflexivity.
  - rewrite run_quiet_prefix by assumption.
    cbn [streaming stop world_ready].
    rewrite cycle_completes by assumption.
    cbn [streaming stop world_ready].
    rewrite loop_events_app, loop_locals_app. cbn [loop_events loop_locals].
    rewrite app_nil_r, <- !app_assoc, Nat.add_0_l. reflexivity.
  - unfold shutting_down.
    change [Release (FileH OutputCsv); Release (FileH InputCsv);
            Release Plan; Release FftIn; Release FftOut; Release (Buf RX);
            Release (Buf TX); Release (Chan RX false);
            Release (Chan RX true); Release (Chan TX false);
            Release (Chan TX true); Release Ctx; Exit 0]
      with ([Release (FileH OutputCsv); Release (FileH InputCsv);
             Release Plan; Release FftIn; Release FftOut; Release (Buf RX);
             Release (Buf TX); Release (Chan RX false);
             Release (Chan RX true); Release (Chan TX false);
             Release (Chan TX true); Release Ctx] ++ [Exit 0]).
    rewrite !app_assoc. apply termination_of_snoc.
  - destruct (loop_events_published e (pre ++ [c]) (locals0 e)) as [-> ->].
    rewrite length_app. cbn [length]. split; lia.
Qed.

Lemma cancellation_mid_cycle_witness :
  init_ok env_ok = true /\
  rx_sample_size env_ok <> 0 /\ tx_sample_size env_ok <> 0 /\
  forallb (fun c => transport_ok c && quiet c) [cycle_ok] = true /\
  transport_ok cycle_ok = true /\
  main env_ok ([cycle_ok] ++ at_phase (Some AtAnalyse) cycle_ok :: [cycle_ok])
  = Halted 2
      (ready_trace ++
       loop_events env_ok ([cycle_ok] ++ [cycle_ok]) (locals0 env_ok) ++
       shutting_down).
Proof.
  split; [reflexivity|]. split; [discriminate|]. split; [discriminate|].
  split; [reflexivity|]. split; [reflexivity|].
  apply (cancellation_mid_cycle env_ok [cycle_ok] cycle_ok AtAnalyse
           [cycle_ok]);
    [reflexivity | discriminate | discriminate | reflexivity | reflexivity].
Defined.

(* ===================================================================== *)
(** * Further properties of the code *)
(* ===================================================================== *)

Local Open Scope Z_scope.

(** ** The frequency macros *)

Section FloatingPoint.

Lemma pow2_sum (x y : Z) : 0 <= x -> 0 <= y -> 2 ^ (x + y) = 2 ^ x * 2 ^ y.
Proof. intros. apply Z.pow_add_r; assumption. Qed.

(** The exponent that [fp_round] finds for a value [z / 2^k]. *)
Lemma fp_exponent (a d z k : Z) :
  0 < a -> 0 < d -> 0 < z -> 0 <= k -> a * 2 ^ k = z * d ->
  let e0 := Z.log2 a - Z.log2 d in
  (if a * 2 ^ Z.max 0 (- e0) <? d * 2 ^ Z.max 0 (- - e0) then e0 - 1 else e0)
  = Z.log2 z - k.
Proof.
  intros Ha Hd Hz Hk Heq e0.
  destruct (Z.log2_spec a Ha) as [Ha1 Ha2].
  destruct (Z.log2_spec d Hd) as [Hd1 Hd2].
  destruct (Z.log2_spec z Hz) as [Hz1 Hz2].
  pose proof (Z.log2_nonneg a) as Hla.
  pose proof (Z.log2_nonneg d) as Hld.
  pose proof (Z.log2_nonneg z) as Hlz.
  set (la := Z.log2 a) in *. set (ld := Z.log2 d) in *.
  set (lz := Z.log2 z) in *.
  assert (Hpk : 0 < 2 ^ k) by (apply Z.pow_pos_nonneg; lia).
  assert (Hlo : lz - k <= e0).
  { assert (H : 2 ^ (lz + ld) < 2 ^ (Z.succ la + k)).
    { rewrite !pow2_sum by lia.
      apply Z.le_lt_trans with (z * d); [apply Z.mul_le_mono_nonneg; lia|].
      rewrite <- Heq. apply Z.mul_lt_mono_pos_r; lia. }
    apply Z.pow_lt_mono_r_iff in H; unfold e0; lia. }
  assert (Hhi : e0 <= lz - k + 1).
  { assert (H : 2 ^ (la + k) < 2 ^ (Z.succ lz + Z.succ ld)).
    { rewrite !pow2_sum by lia.
      apply Z.le_lt_trans with (a * 2 ^ k);
        [apply Z.mul_le_mono_nonneg_r; lia|].
      rewrite Heq. apply Z.mul_lt_mono_nonneg; lia. }
    apply Z.pow_lt_mono_r_iff in H; unfold e0; lia. }
  rewrite Z.opp_involutive.
  assert (Hcases : e0 = lz - k \/ e0 = lz - k + 1) by lia.
  destruct (Z.ltb_spec (a * 2 ^ Z.max 0 (- e0)) (d * 2 ^ Z.max 0 e0))
    as [Hlt|Hge]; destruct Hcases as [He|He]; try lia; exfalso.
  - (* the value is at least 2^e0 *)
    apply (Z.mul_lt_mono_pos_r (2 ^ k)) in Hlt; [|exact Hpk].
    replace (a * 2 ^ Z.max 0 (- e0) * 2 ^ k)
      with (z * d * 2 ^ Z.max 0 (- e0)) in Hlt by (rewrite <- Heq; ring).
    replace (d * 2 ^ Z.max 0 e0 * 2 ^ k)
      with (2 ^ lz * d * 2 ^ Z.max 0 (- e0)) in Hlt.
    + assert (Hp : 0 < 2 ^ Z.max 0 (- e0)) by (apply Z.pow_pos_nonneg; lia).
      nia.
    + replace (d * 2 ^ Z.max 0 e0 * 2 ^ k)
        with (d * 2 ^ (Z.max 0 e0 + k)) by (rewrite pow2_sum by lia; ring).
      replace (2 ^ lz * d * 2 ^ Z.max 0 (- e0))
        with (d * 2 ^ (lz + Z.max 0 (- e0))) by (rewrite pow2_sum by lia; ring).
      do 2 f_equal. lia.
  - (* the value is below 2^e0 *)
    apply (Z.mul_le_mono_pos_r _ _ (2 ^ k)) in Hge; [|exact Hpk].
    replace (a * 2 ^ Z.max 0 (- e0) * 2 ^ k)
      with (z * d * 2 ^ Z.max 0 (- e0)) in Hge by (rewrite <- Heq; ring).
    replace (d * 2 ^ Z.max 0 e0 * 2 ^ k)
      with (2 ^ Z.succ lz * d * 2 ^ Z.max 0 (- e0)) in Hge.
    + assert (Hp : 0 < 2 ^ Z.max 0 (- e0)) by (apply Z.pow_pos_nonneg; lia).
      nia.
    + replace (d * 2 ^ Z.max 0 e0 * 2 ^ k)
        with (d * 2 ^ (Z.max 0 e0 + k)) by (rewrite pow2_sum by lia; ring).
      replace (2 ^ Z.succ lz * d * 2 ^ Z.max 0 (- e0))
        with (d * 2 ^ (Z.succ lz + Z.max 0 (- e0)))
        by (rewrite pow2_sum by lia; ring).
      do 2 f_equal. lia.
Qed.

(** A value that has no more than [prec] significant bits is kept. *)
Lemma fp_round_exact (prec : Z) (q : Q) (z k : Z) :
  0 < prec -> 0 <= k -> Z.abs z < 2 ^ prec ->
  (q == z # Z.to_pos (2 ^ k))%Q ->
  (fp_round prec q == z # Z.to_pos (2 ^ k))%Q.
Proof.
  intros Hprec Hk Hz Hq.
  assert (Hpk : 0 < 2 ^ k) by (apply Z.pow_pos_nonneg; lia).
  unfold Qeq in Hq. cbn [Qnum Qden] in Hq.
  rewrite Z2Pos.id in Hq by exact Hpk.
  unfold fp_round.
  set (n := Qnum q) in *. set (d := Z.pos (Qden q)) in *.
  assert (Hd : 0 < d) by (unfold d; lia).
  destruct (Z.eqb_spec n 0) as [Hn0|Hn0].
  - assert (Hz0 : z = 0) by nia. subst z. reflexivity.
  - cbv zeta.
    assert (Hz0 : z <> 0) by nia.
    assert (Haz : Z.abs n * 2 ^ k = Z.abs z * d).
    { pose proof (f_equal Z.abs Hq) as Habs.
      rewrite !Z.abs_mul, (Z.abs_eq (2 ^ k)), (Z.abs_eq d) in Habs by lia.
      exact Habs. }
    rewrite (fp_exponent (Z.abs n) d (Z.abs z) k) by (lia || exact Haz).
    assert (Hlz : Z.log2 (Z.abs z) < prec).
    { apply Z.log2_lt_pow2; lia. }
    pose proof (Z.log2_nonneg (Z.abs z)) as Hlz0.
    set (s := prec - 1 - (Z.log2 (Z.abs z) - k)).
    assert (Hs : k <= s) by (unfold s; lia).
    rewrite (Z.max_r 0 s), (Z.max_l 0 (- s)) by lia.
    rewrite Z.pow_0_r, !Z.mul_1_r.
    assert (Hnum : Z.abs n * 2 ^ s = Z.abs z * 2 ^ (s - k) * d).
    { replace s with (k + (s - k)) at 1 by lia.
      rewrite pow2_sum by lia. rewrite Z.mul_assoc, Haz. ring. }
    rewrite Hnum, Z.div_mul, Z.mod_mul by lia.
    destruct (Z.ltb_spec (2 * 0) d) as [_|Hbad]; [|lia].
    rewrite Qred_correct. unfold Qeq. cbn [Qnum Qden].
    assert (Hps : 0 < 2 ^ s) by (apply Z.pow_pos_nonneg; lia).
    rewrite !Z2Pos.id by assumption.
    assert (Hsgn : Z.sgn n = Z.sgn z).
    { destruct (Z.sgn_spec n) as [[? ->]|[[? ->]|[? ->]]];
        destruct (Z.sgn_spec z) as [[? ->]|[[? ->]|[? ->]]]; nia. }
    rewrite Hsgn.
    replace (2 ^ s) with (2 ^ (s - k) * 2 ^ k)
      by (rewrite <- pow2_sum by lia; f_equal; lia).
    pose proof (Z.abs_sgn z) as Habs.
    transitivity (Z.abs z * Z.sgn z * (2 ^ (s - k) * 2 ^ k)); [ring|].
    rewrite Habs. reflexivity.
Qed.


(** Dropping the fraction looks at the value, not at the way it is
    written. *)
Lemma Qtrunc_pos (q : Q) : 0 <= Qnum q -> Qtrunc q = Qfloor q.
Proof.
  intros H. unfold Qtrunc. destruct q as [n d]. simpl in *.
  apply Z.quot_div_nonneg; lia.
Qed.

Lemma Qtrunc_comp (p q : Q) : (p == q)%Q -> Qtrunc p = Qtrunc q.
Proof.
  intros Heq.
  assert (Hsign : forall x : Q,
            Qtrunc x = if 0 <=? Qnum x then Qfloor x else - Qfloor (- x)%Q).
  { intros x. destruct (Z.leb_spec 0 (Qnum x)) as [H|H].
    - apply Qtrunc_pos, H.
    - rewrite <- (Qtrunc_pos (- x)) by (destruct x; simpl in *; lia).
      unfold Qtrunc. destruct x as [n d]. simpl in *.
      rewrite Z.quot_opp_l by lia. lia. }
  rewrite !Hsign.
  assert (Hs : (0 <=? Qnum p) = (0 <=? Qnum q)).
  { unfold Qeq in Heq.
    destruct (Z.leb_spec 0 (Qnum p)), (Z.leb_spec 0 (Qnum q));
      try reflexivity; nia. }
  rewrite Hs. destruct (0 <=? Qnum q).
  - apply Qfloor_comp, Heq.
  - f_equal. apply Qfloor_comp. rewrite Heq. reflexivity.
Qed.

Lemma to_long_long_comp (p q : Q) :
  (p == q)%Q -> to_long_long p = to_long_long q.
Proof. intros H. unfold to_long_long. rewrite (Qtrunc_comp p q H). reflexivity. Qed.

End FloatingPoint.

(** X2.  On a whole number [n] of MHz within 4503599627 of zero, so that
    [n * 10^6 + 0.5] is a [double], [MHZ] is exact when [n] is not
    negative and one Hz too high when it is: the cast drops the fraction
    toward zero after the half has been added. *)
Theorem MHZ_of_whole (n : Z) :
  - 4503599627 <= n <= 4503599627 ->
  MHZ (inject_Z n) = if n <? 0 then n * 1000000 + 1 else n * 1000000.
Proof.
  intros Hn. unfold MHZ, to_double.
  assert (H0 : (fp_round 53 (inject_Z n) == inject_Z n)%Q).
  { apply (fp_round_exact 53 (inject_Z n) n 0); try lia.
    reflexivity. }
  assert (H1 : (fp_round 53 (fp_round 53 (inject_Z n) * 1000000)
                == inject_Z (n * 1000000))%Q).
  { apply (fp_round_exact 53 _ (n * 1000000) 0); try lia.
    rewrite H0. unfold Qeq. simpl. lia. }
  assert (H2 : (fp_round 53 (fp_round 53 (fp_round 53 (inject_Z n) * 1000000)
                             + 0.5)
                == (2 * (n * 1000000) + 1) # 2)%Q).
  { apply (fp_round_exact 53 _ (2 * (n * 1000000) + 1) 1); try lia.
    rewrite H1. unfold Qeq. simpl. lia. }
  rewrite (to_long_long_comp _ _ H2).
  unfold to_long_long, Qtrunc. cbn [Qnum Qden].
  destruct (Z.ltb_spec n 0) as [Hneg|Hpos].
  - replace (2 * (n * 1000000) + 1)
      with (- (2 * (- (n * 1000000) - 1) + 1)) by lia.
    rewrite Z.quot_opp_l by lia.
    rewrite Z.quot_div_nonneg by lia.
    replace ((2 * (- (n * 1000000) - 1) + 1) / 2) with (- (n * 1000000) - 1)
      by (apply Z.div_unique with 1; lia).
    destruct (Z.leb_spec (- 2 ^ 63) (- (- (n * 1000000) - 1)));
      destruct (Z.ltb_spec (- (- (n * 1000000) - 1)) (2 ^ 63)); simpl; lia.
  - rewrite Z.quot_div_nonneg by lia.
    replace ((2 * (n * 1000000) + 1) / 2) with (n * 1000000)
      by (apply Z.div_unique with 1; lia).
    destruct (Z.leb_spec (- 2 ^ 63) (n * 1000000));
      destruct (Z.ltb_spec (n * 1000000) (2 ^ 63)); simpl; lia.
Qed.

Lemma MHZ_of_whole_witness :
  - 4503599627 <= 8 <= 4503599627 /\ MHZ (inject_Z 8) = 8000000.
Proof.
  split; [lia|]. exact (MHZ_of_whole 8 ltac:(lia)).
Defined.

(** ** The columns of fft.csv *)

Section Columns.

Local Open Scope R_scope.

Lemma cabs_nonneg (z : complex) : 0 <= cabs z.
Proof. unfold cabs. apply sqrt_pos. Qed.

Lemma cabs_zero_iff (z : complex) : cabs z = 0 <-> z = C0.
Proof.
  split.
  - intros Hz. unfold cabs in Hz. apply sqrt_eq_0 in Hz; [|nra].
    destruct z as [a b]. simpl in Hz. unfold C0.
    assert (a = 0) by nra. assert (b = 0) by nra. subst. reflexivity.
  - intros ->. apply cabs_C0.
Qed.

Lemma magnitude_cases (z : complex) :
  (z = C0 /\ dbl_scale 20 (log10 (cabs z)) = NegInf) \/
  (z <> C0 /\ dbl_scale 20 (log10 (cabs z))
              = Fin (20 * (ln (cabs z) / ln 10))).
Proof.
  destruct (Req_dec_T (cabs z) 0) as [Hz|Hz].
  - left. split; [apply cabs_zero_iff, Hz|].
    unfold log10. destruct (Req_dec_T (cabs z) 0); [|contradiction].
    simpl. destruct (Rlt_dec 0 20); [reflexivity | lra].
  - right. split; [intros ->; apply Hz, cabs_C0|].
    unfold log10. destruct (Req_dec_T (cabs z) 0); [contradiction|].
    pose proof (cabs_nonneg z).
    destruct (Rlt_dec 0 (cabs z)); [reflexivity | lra].
Qed.

End Columns.

(** X6.  A magnitude written to fft.csv is never a NaN and never
    [+inf]: it is [-inf] exactly for the bins whose amplitude is zero and the
    finite [20 log10 |out[k]|] for all others. *)
Theorem magnitude_column (n : nat) (fs : Z) (out : list complex) (k : nat) :
  (k < n)%nat ->
  exists f : R,
    spectrum n fs out !! k
    = Some (f, dbl_scale 20 (log10 (cabs (nth k out C0)))) /\
    ((nth k out C0 = C0 /\
      dbl_scale 20 (log10 (cabs (nth k out C0))) = NegInf) \/
     (nth k out C0 <> C0 /\
      dbl_scale 20 (log10 (cabs (nth k out C0)))
      = Fin (20 * (ln (cabs (nth k out C0)) / ln 10)))).
Proof.
  intros Hk. eexists. split; [|apply magnitude_cases].
  unfold spectrum. rewrite list_lookup_fmap, lookup_seq_lt by exact Hk.
  reflexivity.
Qed.

Lemma magnitude_column_witness :
  (0 < 1)%nat /\
  exists f : R,
    spectrum 1 30720000 [C0] !! 0%nat
    = Some (f, dbl_scale 20 (log10 (cabs (nth 0 [C0] C0)))).
Proof.
  split; [lia|].
  destruct (magnitude_column 1 30720000 [C0] 0 ltac:(lia)) as (f & Hf & _).
  exists f. exact Hf.
Defined.

(** X7.  Whatever was received, the frequency column of fft.csv rises
    from zero in equal steps of [sample_rate / fft_size] and stays below
    the sample rate: bin [k] is at [k] times that spacing, and the upper
    half of the bins is not folded to negative frequencies.  With the
    sample rate and the size of [main] the spacing is 30 kHz. *)
Theorem frequency_column (n : nat) (fs : Z) (out : list complex) (k : nat) :
  (k < n)%nat -> 0 < fs ->
  length (spectrum n fs out) = n /\
  fst (nth k (spectrum n fs out) (0%R, NaN))
  = (INR k * (IZR fs / INR n))%R /\
  (0 <= fst (nth k (spectrum n fs out) (0%R, NaN)) < IZR fs)%R /\
  ((S k < n)%nat ->
   (fst (nth k (spectrum n fs out) (0%R, NaN))
    < fst (nth (S k) (spectrum n fs out) (0%R, NaN)))%R) /\
  (IZR (fs_hz rxcfg) / INR fft_size = 30000)%R.
Proof.
  intros Hk Hfs.
  assert (Hn : (0 < INR n)%R) by (apply lt_0_INR; lia).
  assert (Hf : (0 < IZR fs)%R) by (apply IZR_lt; exact Hfs).
  assert (Hstep : (0 < IZR fs / INR n)%R) by (apply Rdiv_lt_0_compat; assumption).
  assert (Hnth : forall j : nat, (j < n)%nat ->
            fst (nth j (spectrum n fs out) (0%R, NaN))
            = (INR j * (IZR fs / INR n))%R).
  { intros j Hj. unfold spectrum.
    rewrite (nth_map_seq _ (0%R, NaN) n j Hj). cbn [fst].
    rewrite <- !INR_IZR_INZ. field. lra. }
  split; [unfold spectrum; rewrite length_map, length_seq; reflexivity|].
  split; [apply Hnth, Hk|].
  split.
  - rewrite (Hnth k Hk).
    assert (Hk0 : (0 <= INR k)%R) by apply pos_INR.
    assert (Hkn : (INR k < INR n)%R) by (apply lt_INR; exact Hk).
    split; [apply Rmult_le_pos; lra|].
    replace (IZR fs) with (INR n * (IZR fs / INR n))%R at 2 by (field; lra).
    apply Rmult_lt_compat_r; assumption.
  - split.
    + intros Hk'. rewrite (Hnth k Hk), (Hnth (S k) Hk'), S_INR. lra.
    + rewrite rx_fs_hz_value. unfold fft_size.
      replace (INR 1024) with 1024%R by (rewrite INR_IZR_INZ; reflexivity).
      field.
Qed.

Lemma frequency_column_witness :
  (3 < fft_size)%nat /\ 0 < fs_hz rxcfg /\
  fst (nth 3 (spectrum fft_size (fs_hz rxcfg) []) (0%R, NaN))
  = (INR 3 * (IZR (fs_hz rxcfg) / INR fft_size))%R.
Proof.
  split; [unfold fft_size; lia|]. split; [reflexivity|].
  apply (frequency_column fft_size (fs_hz rxcfg) [] 3);
    [unfold fft_size; lia | reflexivity].
Defined.

(** ** A buffer shorter than the transform *)

(** X8.  The loop that copies the received samples never writes at or
    beyond [fft_size], and it writes nothing where the buffer has no
    sample: when the buffer holds fewer than [fft_size] samples, the
    entries of [in] past its end keep what the previous iteration left
    there. *)
Theorem short_block_keeps_tail (n : nat) (win : list R) (blk : list sample)
    (inb : list complex) (i : nat) :
  length inb = n -> (length blk <= n)%nat ->
  length (fill_in n win blk inb) = n /\
  fill_in n win blk inb !! i
  = if decide (i < length blk)%nat
    then Some (cmul (iq (nth i blk (0, 0))) (of_real (nth i win 0%R)))
    else inb !! i.
Proof.
  intros Hin Hblk. unfold fill_in.
  destruct (fill_fold n win blk inb 0) as [_ Hfst]; [lia|].
  split.
  - apply Nat.le_antisymm.
    + destruct (Nat.le_gt_cases (length (fold_left (fill_step n win) blk (inb, 0%nat)).1) n)
        as [H|H]; [exact H|].
      exfalso.
      assert (Hsome : is_Some ((fold_left (fill_step n win) blk (inb, 0%nat)).1 !! n))
        by (apply lookup_lt_is_Some; lia).
      rewrite Hfst in Hsome. case_decide; [lia|].
      apply lookup_lt_is_Some in Hsome. lia.
    + destruct (Nat.le_gt_cases n (length (fold_left (fill_step n win) blk (inb, 0%nat)).1))
        as [H|H]; [exact H|].
      exfalso.
      assert (Hnone : (fold_left (fill_step n win) blk (inb, 0%nat)).1
                      !! (n - 1)%nat = None)
        by (apply lookup_ge_None; lia).
      rewrite Hfst in Hnone. case_decide; [discriminate|].
      apply lookup_ge_None in Hnone. lia.
  - rewrite Hfst. replace (i - 0)%nat with i by lia.
    repeat case_decide; try lia; reflexivity.
Qed.

Lemma short_block_keeps_tail_witness :
  length [Cplx 7 7; Cplx 8 8] = 2%nat /\
  (length [(1, 2)] <= 2)%nat /\
  fill_in 2 [1%R; 1%R] [(1, 2)] [Cplx 7 7; Cplx 8 8] !! 1%nat
  = Some (Cplx 8 8).
Proof.
  split; [reflexivity|]. split; [simpl; lia|].
  apply (proj2 (short_block_keeps_tail 2 [1%R; 1%R] [(1, 2)]
                  [Cplx 7 7; Cplx 8 8] 1 eq_refl ltac:(simpl; lia))).
Defined.

(** ** The set-up, outcome by outcome *)

Ltac init_aborts_at :=
  left; eexists; split; [reflexivity | split; [simpl; tauto | asserts_fail]].

Ltac pass' b :=
  destruct b eqn:?; simpl; [ | solve [init_aborts_at | init_exits] ].

Lemma init_outcomes (e : init_env) :
  (exists tr, init e world0 = Halt tr /\
              In tr [[Abort]; [Acquire Ctx; Abort]] /\
              asserts_hold e = false) \/
  (exists tr, init e world0 = Halt tr /\
              In tr [refused_write_trace; no_rxbuf_trace; no_txbuf_trace]) \/
  (init e world0 = Ret (locals0 e) (world_ready (sigint_in_init e) ready_trace)
   /\ asserts_hold e = true).
Proof.
  destruct e as [cc dc phy txd rxd [rp r1 r2 r3 rl r4] [tp t1 t2 t3 tl t4]
                 [a1 a2] [b1 b2] [c1 c2] [d1 d2] rb tb ti ii oi wi rs ts sg].
  unfold init, cfg_ad9361_streaming_ch, get_phy_chan, get_lo_chan,
    get_ad9361_phy, get_ad9361_stream_dev, get_ad9361_stream_ch, wr_ch,
    errchk, create_buffer, ASSERT, bind, emit, update, handle_sig, shutdown,
    ret, world0.
  simpl.
  pass' cc. pass' (0 <? dc). pass' txd. pass' rxd.
  pass' phy. pass' rp.
  survive (r1 <? 0). survive (r2 <? 0). survive (r3 <? 0).
  pass' rl. survive (r4 <? 0).
  pass' tp.
  survive (t1 <? 0). survive (t2 <? 0). survive (t3 <? 0).
  pass' tl. survive (t4 <? 0).
  assert (Hor : forall x y : bool, (if negb x then y else x) = x || y)
    by (intros [] []; reflexivity).
  rewrite !Hor.
  pass' (a1 || a2). pass' (b1 || b2). pass' (c1 || c2). pass' (d1 || d2).
  pass' rb. pass' tb.
  right; right. split.
  - destruct sg; reflexivity.
  - unfold asserts_hold, cfg_asserts_hold, chan_found. simpl.
    repeat match goal with H : _ = true |- _ => rewrite H; clear H end.
    reflexivity.
Qed.

(** With every [ASSERT] passing, what the set-up does is decided by the
    attribute writes and the two buffers, in that order. *)
Lemma init_when_asserts_hold (e : init_env) :
  asserts_hold e = true ->
  init e world0 =
    if negb (cfg_writes_ok (rx_cfg_env e) && cfg_writes_ok (tx_cfg_env e))
    then Halt refused_write_trace
    else if negb (rxbuf_created e) then Halt no_rxbuf_trace
    else if negb (txbuf_created e) then Halt no_txbuf_trace
    else Ret (locals0 e) (world_ready (sigint_in_init e) ready_trace).
Proof.
  intros Hok.
  destruct e as [cc dc phy txd rxd [rp r1 r2 r3 rl r4] [tp t1 t2 t3 tl t4]
                 [a1 a2] [b1 b2] [c1 c2] [d1 d2] rb tb ti ii oi wi rs ts sg].
  unfold asserts_hold, cfg_asserts_hold, cfg_writes_ok, chan_found in *.
  cbn [context_created devices_count phy_dev_found tx_dev_found
       rx_dev_found rx_cfg_env tx_cfg_env rx0_i_env rx0_q_env tx0_i_env
       tx0_q_env rxbuf_created txbuf_created sigint_in_init
       phy_chan_found rf_port_select_ret rf_bandwidth_ret
       sampling_frequency_ret lo_chan_found frequency_ret
       by_voltage by_altvoltage] in *.
  repeat match goal with
         | H : _ && _ = true |- _ =>
             apply andb_prop in H; destruct H as [? ?]
         end.
  subst.
  unfold init, cfg_ad9361_streaming_ch, get_phy_chan, get_lo_chan,
    get_ad9361_phy, get_ad9361_stream_dev, get_ad9361_stream_ch, wr_ch,
    errchk, create_buffer, ASSERT, bind, emit, update, handle_sig,
    shutdown, ret, world0.
  cbn [context_created devices_count phy_dev_found tx_dev_found
       rx_dev_found rx_cfg_env tx_cfg_env rx0_i_env rx0_q_env tx0_i_env
       tx0_q_env rxbuf_created txbuf_created sigint_in_init
       phy_chan_found rf_port_select_ret rf_bandwidth_ret
       sampling_frequency_ret lo_chan_found frequency_ret
       by_voltage by_altvoltage].
  assert (Hor : forall x y : bool, (if negb x then y else x) = x || y)
    by (intros [] []; reflexivity).
  rewrite !Hor.
  repeat match goal with
         | H : _ = true |- _ => rewrite H; clear H
         end.
  assert (Hneg : forall v : Z, (0 <=? v) = negb (v <? 0))
    by (intros v; destruct (Z.ltb_spec v 0), (Z.leb_spec 0 v);
        try reflexivity; lia).
  rewrite !Hneg.
  destruct (r1 <? 0); [reflexivity|]. destruct (r2 <? 0); [reflexivity|].
  destruct (r3 <? 0); [reflexivity|]. destruct (r4 <? 0); [reflexivity|].
  destruct (t1 <? 0); [reflexivity|]. destruct (t2 <? 0); [reflexivity|].
  destruct (t3 <? 0); [reflexivity|]. destruct (t4 <? 0); [reflexivity|].
  destruct rb; [|reflexivity]. destruct tb; [|reflexivity].
  destruct sg; reflexivity.
Qed.

Lemma main_when_asserts_hold (e : init_env) (cycles : list cycle_env) :
  asserts_hold e = true ->
  main e cycles =
    if negb (cfg_writes_ok (rx_cfg_env e) && cfg_writes_ok (tx_cfg_env e))
    then Halted 0 refused_write_trace
    else if negb (rxbuf_created e) then Halted 0 no_rxbuf_trace
    else if negb (txbuf_created e) then Halted 0 no_txbuf_trace
    else streaming buffer_size fft_size plan rxcfg txcfg e cycles 0
           (locals0 e) (world_ready (sigint_in_init e) ready_trace).
Proof.
  intros Hok. unfold main. rewrite (init_when_asserts_hold e Hok).
  destruct (cfg_writes_ok (rx_cfg_env e) && cfg_writes_ok (tx_cfg_env e));
    [|reflexivity].
  destruct (rxbuf_created e); [|reflexivity].
  destruct (txbuf_created e); reflexivity.
Qed.

(** X9.  When an attribute write of the configuration is refused (every
    [ASSERT] passing), [main] ends at once whatever would follow: the
    context is released and the process exits with status 0; no channel
    was enabled, no buffer created, nothing allocated for the transform,
    and no iteration runs. *)
Theorem refused_write_exits (e : init_env) (cycles : list cycle_env) :
  asserts_hold e = true ->
  cfg_writes_ok (rx_cfg_env e) && cfg_writes_ok (tx_cfg_env e) = false ->
  main e cycles = Halted 0 [Acquire Ctx; Release Ctx; Exit 0].
Proof.
  intros Hok Hw. rewrite (main_when_asserts_hold e cycles Hok), Hw.
  reflexivity.
Qed.

Lemma refused_write_exits_witness :
  asserts_hold (env_with true cfg_env_refused true) = true /\
  cfg_writes_ok (rx_cfg_env (env_with true cfg_env_refused true)) &&
  cfg_writes_ok (tx_cfg_env (env_with true cfg_env_refused true)) = false /\
  main (env_with true cfg_env_refused true) [cycle_ok]
  = Halted 0 [Acquire Ctx; Release Ctx; Exit 0].
Proof.
  split; [reflexivity|]. split; [reflexivity|].
  apply (refused_write_exits (env_with true cfg_env_refused true)
           [cycle_ok]); reflexivity.
Defined.

(** X10.  When a transport buffer cannot be created (the configuration
    having succeeded), [main] ends in [shutdown] with status 0 before
    anything is allocated for the transform: the four channels are disabled
    and the context released; if it is the RX buffer that fails, the TX
    buffer is not even asked for, and if it is the TX buffer, the RX buffer
    is destroyed first. *)
Theorem buffer_failure_exits (e : init_env) (cycles : list cycle_env) :
  asserts_hold e = true ->
  cfg_writes_ok (rx_cfg_env e) && cfg_writes_ok (tx_cfg_env e) = true ->
  (rxbuf_created e = false -> main e cycles = Halted 0 no_rxbuf_trace) /\
  (rxbuf_created e = true -> txbuf_created e = false ->
   main e cycles = Halted 0 no_txbuf_trace) /\
  acquired (Buf TX) no_rxbuf_trace = false /\
  acquired Plan no_rxbuf_trace = false /\
  acquired Plan no_txbuf_trace = false /\
  transport_releases no_txbuf_trace
  = [Buf RX; Chan RX false; Chan RX true; Chan TX false; Chan TX true; Ctx].
Proof.
  intros Hok Hw. rewrite (main_when_asserts_hold e cycles Hok), Hw.
  split; [intros ->; reflexivity|].
  split; [intros -> ->; reflexivity|].
  repeat split.
Qed.

Lemma buffer_failure_exits_witness :
  asserts_hold (env_with true cfg_env_ok false) = true /\
  cfg_writes_ok (rx_cfg_env (env_with true cfg_env_ok false)) &&
  cfg_writes_ok (tx_cfg_env (env_with true cfg_env_ok false)) = true /\
  main (env_with true cfg_env_ok false) [cycle_ok]
  = Halted 0 no_rxbuf_trace.
Proof.
  split; [reflexivity|]. split; [reflexivity|].
  apply (proj1 (buffer_failure_exits (env_with true cfg_env_ok false)
                  [cycle_ok] eq_refl eq_refl)).
  reflexivity.
Defined.

(** X11.  When SIGINT arrives before the loop is reached, no iteration
    runs and nothing is handed to the transport, whatever the device would
    have done: the loop test fails at once, both files are closed, the plan
    and the arrays of the transform are freed, the transport is released
    and the process exits with status 0. *)
Theorem sigint_before_loop (e : init_env) (cycles : list cycle_env) :
  setup_ok e = true -> sigint_in_init e = true ->
  main e cycles = Halted 0 (ready_trace ++ shutting_down) /\
  transport_calls (ready_trace ++ shutting_down) = [].
Proof.
  intros Hok Hsig. unfold setup_ok in Hok.
  do 4 (apply andb_prop in Hok; destruct Hok as [Hok ?]).
  rewrite (main_when_asserts_hold e cycles Hok).
  replace (cfg_writes_ok (rx_cfg_env e) && cfg_writes_ok (tx_cfg_env e))
    with true by (symmetry; apply andb_true_intro; split; assumption).
  replace (rxbuf_created e) with true by (symmetry; assumption).
  replace (txbuf_created e) with true by (symmetry; assumption).
  rewrite Hsig. cbn [negb].
  split; [|reflexivity].
  destruct cycles as [|c rest]; cbn [streaming stop world_ready];
    rewrite after_loop_run; reflexivity.
Qed.

Lemma sigint_before_loop_witness :
  setup_ok env_sigint_early = true /\
  sigint_in_init env_sigint_early = true /\
  main env_sigint_early [cycle_ok; cycle_ok]
  = Halted 0 (ready_trace ++ shutting_down).
Proof.
  split; [reflexivity|]. split; [reflexivity|].
  apply (proj1 (sigint_before_loop env_sigint_early [cycle_ok; cycle_ok]
                  eq_refl eq_refl)).
Defined.

Lemma main_outcomes (e : init_env) (cycles : list cycle_env) :
  (exists tr, main e cycles = Halted 0 tr /\
              In tr [[Abort]; [Acquire Ctx; Abort]] /\
              asserts_hold e = false) \/
  (exists tr, main e cycles = Halted 0 tr /\
              In tr [refused_write_trace; no_rxbuf_trace; no_txbuf_trace]) \/
  (main e cycles
   = streaming buffer_size fft_size plan rxcfg txcfg e cycles 0 (locals0 e)
       (world_ready (sigint_in_init e) ready_trace)
   /\ asserts_hold e = true).
Proof.
  unfold main.
  destruct (init_outcomes e) as [(tr & -> & H)|[(tr & -> & H)|[-> H]]].
  - left. exists tr. split; [reflexivity | exact H].
  - right; left. exists tr. split; [reflexivity | exact H].
  - right; right. split; [reflexivity | exact H].
Qed.

(** X12.  A run of [main] that ends in [abort()] does so during the
    set-up, on a failed [ASSERT], before any iteration; it has released
    nothing: its whole trace is the abort alone or, when the context had
    been created, the creation of the context followed by the abort, the
    context being left open. *)
Theorem abort_releases_nothing (e : init_env) (cycles : list cycle_env)
    (k : nat) (tr : list event) :
  main e cycles = Halted k tr ->
  termination_of tr = Some Aborted ->
  k = 0%nat /\ asserts_hold e = false /\
  (tr = [Abort] \/ tr = [Acquire Ctx; Abort]) /\
  forall h : handle, released h tr = false.
Proof.
  intros Hmain Hab.
  destruct (main_outcomes e cycles)
    as [(tr' & Hm & Hin & Hfail)|[(tr' & Hm & Hin)|[Hm _]]];
    rewrite Hm in Hmain.
  - injection Hmain as <- <-. simpl in Hin.
    split; [reflexivity|]. split; [exact Hfail|].
    destruct Hin as [<-|[<-|[]]].
    + split; [left; reflexivity | intros h; reflexivity].
    + split; [right; reflexivity | intros h; reflexivity].
  - injection Hmain as _ <-. simpl in Hin.
    destruct Hin as [<-|[<-|[<-|[]]]]; discriminate Hab.
  - destruct (run_halts _ _ _ _ _ _ _ _ _ _ _ _ Hmain)
      as [(mid & -> & _)|[_ (body & ->)]].
    + rewrite !app_assoc, termination_of_snoc in Hab. discriminate.
    + rewrite termination_of_snoc in Hab. discriminate.
Qed.

Lemma abort_releases_nothing_witness :
  main env_no_port [cycle_ok] = Halted 0 [Acquire Ctx; Abort] /\
  termination_of [Acquire Ctx; Abort] = Some Aborted /\
  asserts_hold env_no_port = false.
Proof.
  split; [reflexivity|]. split; [reflexivity|].
  apply (abort_releases_nothing env_no_port [cycle_ok] 0
           [Acquire Ctx; Abort] eq_refl eq_refl).
Defined.

(** ** What is given back, and what is not *)

Section GivenBack.

Variable e : init_env.

Local Abbreviation run := (streaming buffer_size fft_size plan rxcfg txcfg e).

Lemma acquired_releases (h : handle) (w : world) :
  acquired h (releases w) = false.
Proof. destruct w as [[] [] [] [] [] [] [] s t]; reflexivity. Qed.

Lemma window_kept_by_releases (w : world) :
  released WinMem (releases w) = false.
Proof. destruct w as [[] [] [] [] [] [] [] s t]; reflexivity. Qed.

(** What a run adds to the trace it starts from: it acquires fft.csv
    alone, and gives it back; it never frees the window; and if it
    destroys the plan it gives back everything the set-up acquired but the
    window. *)
Lemma run_adds (cycles : list cycle_env) (k : nat) (l : locals)
    (stopped : bool) (tr0 : list event) :
  exists suffix : list event,
    result_trace (run cycles k l (world_ready stopped tr0))
    = tr0 ++ suffix /\
    released WinMem suffix = false /\
    (forall h : handle, acquired h suffix = true ->
                        h = FileH FftCsv /\ released h suffix = true) /\
    (released Plan suffix = true ->
     forall h : handle, acquired h ready_trace = true -> h <> WinMem ->
                        released h suffix = true).
Proof.
  apply (fun H1 H2 H3 H4 H5 H6 =>
           streaming_cases buffer_size fft_size plan rxcfg txcfg e
             (fun cycles k l w r =>
                forall stopped tr0, w = world_ready stopped tr0 ->
                exists suffix : list event,
                  result_trace r = tr0 ++ suffix /\
                  released WinMem suffix = false /\
                  (forall h : handle, acquired h suffix = true ->
                     h = FileH FftCsv /\ released h suffix = true) /\
                  (released Plan suffix = true ->
                   forall h : handle, acquired h ready_trace = true ->
                                      h <> WinMem ->
                                      released h suffix = true))
             H1 H2 H3 H4 H5 H6 cycles k l (world_ready stopped tr0)
             stopped tr0 eq_refl);
    clear cycles k l stopped tr0.
  - intros cycles k l w _ stopped tr0 ->.
    exists (closing_events ++ releases (world_ready stopped tr0) ++ [Exit 0]).
    split; [reflexivity|]. split; [reflexivity|]. split.
    + intros h Hh. destruct h as [|[] []|[]| | | | |[]]; discriminate Hh.
    + intros _ h Hh Hne.
      destruct h as [|[] []|[]| | | | |[]];
        first [reflexivity | discriminate Hh | contradiction].
  - intros k l w _ stopped tr0 ->. exists [].
    cbn [result_trace trace world_ready]. rewrite app_nil_r.
    split; [reflexivity|]. split; [reflexivity|].
    split; [intros h Hh; discriminate Hh | intros Hp; discriminate Hp].
  - intros c rest k l w _ _ stopped tr0 ->.
    exists (releases (world_ready stopped tr0) ++ [Exit 0]).
    split; [reflexivity|]. split; [reflexivity|]. split.
    + intros h Hh. destruct h as [|[] []|[]| | | | |[]]; discriminate Hh.
    + intros Hp; discriminate Hp.
  - intros c rest k l w _ _ _ stopped tr0 ->.
    exists ([Push (txdata l)] ++ releases (world_ready stopped tr0) ++
            [Exit 0]).
    split; [reflexivity|]. split; [reflexivity|]. split.
    + intros h Hh. destruct h as [|[] []|[]| | | | |[]]; discriminate Hh.
    + intros Hp; discriminate Hp.
  - intros c rest k l w _ _ _ _ stopped tr0 ->.
    exists [Push (txdata l); Refill (rx_samples buffer_size c); Fault].
    split; [reflexivity|]. split; [reflexivity|].
    split; [intros h Hh; discriminate Hh | intros Hp; discriminate Hp].
  - intros c rest k l w r _ _ _ _ _ IH stopped tr0 ->.
    destruct (IH (match sigint_at c with Some _ => true | None => stopped end)
                 (tr0 ++ cycle_events buffer_size fft_size plan rxcfg txcfg e
                                      c l))
      as (suffix & Htr & Hwin & Hacq & Hplan).
    { unfold signalled. destruct (sigint_at c); reflexivity. }
    exists (cycle_events buffer_size fft_size plan rxcfg txcfg e c l ++ suffix).
    split; [rewrite Htr, <- app_assoc; reflexivity|].
    split; [rewrite released_app, Hwin; reflexivity|].
    split.
    + intros h Hh. rewrite acquired_app in Hh. rewrite released_app.
      apply orb_prop in Hh. destruct Hh as [Hh|Hh].
      * destruct h as [|[] []|[]| | | | |[]]; try discriminate Hh.
        split; reflexivity.
      * destruct (Hacq h Hh) as [-> Hrel]. split; [reflexivity|].
        rewrite Hrel. apply orb_true_r.
    + intros Hp h Hh Hne. rewrite released_app in Hp |- *.
      cbn [released cycle_events existsb] in Hp.
      rewrite (Hplan Hp h Hh Hne). apply orb_true_r.
Qed.

End GivenBack.

(** X13.  On no run of [main], however it ends, is the window array
    freed.  And a run that gets as far as destroying the plan of the
    transform (the path taken after a cancellation) gives back everything
    else it acquired: both files, fft.csv, the arrays of the transform, the
    buffers, the channels and the context. *)
Theorem window_never_freed (e : init_env) (cycles : list cycle_env) :
  released WinMem (result_trace (main e cycles)) = false /\
  (released Plan (result_trace (main e cycles)) = true ->
   forall h : handle,
     acquired h (result_trace (main e cycles)) = true -> h <> WinMem ->
     released h (result_trace (main e cycles)) = true).
Proof.
  destruct (main_outcomes e cycles)
    as [(tr & -> & Hin & _)|[(tr & -> & Hin)|[-> _]]].
  - simpl in Hin. destruct Hin as [<-|[<-|[]]];
      (split; [reflexivity | intros Hp; discriminate Hp]).
  - simpl in Hin. destruct Hin as [<-|[<-|[<-|[]]]];
      (split; [reflexivity | intros Hp; discriminate Hp]).
  - destruct (run_adds e cycles 0 (locals0 e) (sigint_in_init e) ready_trace)
      as (suffix & -> & Hwin & Hacq & Hplan).
    split; [rewrite released_app, Hwin; reflexivity|].
    intros Hp h Hh Hne. rewrite released_app in Hp |- *.
    replace (released Plan ready_trace) with false in Hp by reflexivity.
    cbn [orb] in Hp. rewrite acquired_app in Hh.
    apply orb_prop in Hh. destruct Hh as [Hh|Hh].
    + rewrite (Hplan Hp h Hh Hne). apply orb_true_r.
    + destruct (Hacq h Hh) as [_ Hrel]. rewrite Hrel. apply orb_true_r.
Qed.

(** ** What goes to the transport *)

Section Transport.

Variable e : init_env.

Local Abbreviation run := (streaming buffer_size fft_size plan rxcfg txcfg e).
Local Abbreviation step := (next_locals buffer_size fft_size plan txcfg e).

Lemma pushed_app (a b : list event) :
  pushed (a ++ b) = pushed a ++ pushed b.
Proof. apply flat_map_app. Qed.

Lemma transport_calls_app (a b : list event) :
  transport_calls (a ++ b) = transport_calls a ++ transport_calls b.
Proof. apply flat_map_app. Qed.

Lemma pushed_releases (w : world) : pushed (releases w) = [].
Proof. destruct w as [[] [] [] [] [] [] [] s t]; reflexivity. Qed.

Lemma transport_calls_releases (w : world) :
  transport_calls (releases w) = [].
Proof. destruct w as [[] [] [] [] [] [] [] s t]; reflexivity. Qed.

Lemma step_txdata (c : cycle_env) (l : locals) :
  length (txdata l) = buffer_size -> txdata (step c l) = synth_block.
Proof.
  intros Hlen. cbn [next_locals txdata].
  rewrite tx_loop_samples, tx_loop_block_times, Hlen. reflexivity.
Qed.

Lemma synth_block_length : length synth_block = buffer_size.
Proof.
  unfold synth_block. rewrite length_map. apply block_times_length.
Qed.

(** The blocks pushed by a run: the one it finds in the buffer, then the
    synthesized block again and again; one per completed iteration, and
    one more when the run ends between a push and the end of its
    iteration. *)
Lemma run_pushed (cycles : list cycle_env) (k : nat) (l : locals)
    (w : world) :
  length (txdata l) = buffer_size ->
  let r := run cycles k l w in
  (k <= result_cycles r)%nat /\
  exists m : nat,
    (result_cycles r - k <= m <= S (result_cycles r - k))%nat /\
    pushed (result_trace r)
    = pushed (trace w) ++
      take m (txdata l :: replicate (result_cycles r - k) synth_block).
Proof.
  cbv zeta.
  apply (streaming_cases buffer_size fft_size plan rxcfg txcfg e
           (fun cycles k l w r =>
              length (txdata l) = buffer_size ->
              (k <= result_cycles r)%nat /\
              exists m : nat,
                (result_cycles r - k <= m <= S (result_cycles r - k))%nat /\
                pushed (result_trace r)
                = pushed (trace w) ++
                  take m (txdata l ::
                          replicate (result_cycles r - k) synth_block)));
    clear cycles k l w.
  - intros cycles k l w _ _. cbn [result_cycles result_trace]. split; [lia|]. exists 0%nat.
    rewrite Nat.sub_diag. split; [lia|].
    rewrite !pushed_app, pushed_releases. reflexivity.
  - intros k l w _ _. cbn [result_cycles result_trace]. split; [lia|]. exists 0%nat.
    rewrite Nat.sub_diag. split; [lia|]. rewrite app_nil_r. reflexivity.
  - intros c rest k l w _ _ _. cbn [result_cycles result_trace]. split; [lia|]. exists 0%nat.
    rewrite Nat.sub_diag. split; [lia|].
    rewrite !pushed_app, pushed_releases. reflexivity.
  - intros c rest k l w _ _ _ _. cbn [result_cycles result_trace]. split; [lia|]. exists 1%nat.
    rewrite Nat.sub_diag. split; [lia|].
    rewrite !pushed_app, pushed_releases. reflexivity.
  - intros c rest k l w _ _ _ _ _. cbn [result_cycles result_trace]. split; [lia|]. exists 1%nat.
    rewrite Nat.sub_diag. split; [lia|].
    rewrite pushed_app. reflexivity.
  - intros c rest k l w r _ _ _ _ _ IH Hlen.
    assert (Hlen' : length (txdata (step c l)) = buffer_size)
      by (rewrite step_txdata by exact Hlen; apply synth_block_length).
    destruct (IH Hlen') as (Hk & m & Hm & Hpushed).
    split; [lia|]. exists (S m). split; [lia|].
    rewrite Hpushed. simpl trace. rewrite pushed_app, <- app_assoc.
    f_equal. rewrite step_txdata by exact Hlen.
    replace (result_cycles r - k)%nat with (S (result_cycles r - S k))
      by lia.
    reflexivity.
Qed.

(** The calls into the transport made by a run: a push then a refill for
    every completed iteration, then at most one more push and one more
    refill. *)
Lemma run_transport_calls (cycles : list cycle_env) (k : nat) (l : locals)
    (w : world) :
  let r := run cycles k l w in
  (k <= result_cycles r)%nat /\
  exists tail : list iodev,
    (tail = [] \/ tail = [TX] \/ tail = [TX; RX]) /\
    transport_calls (result_trace r)
    = transport_calls (trace w) ++
      concat (replicate (result_cycles r - k) [TX; RX]) ++ tail.
Proof.
  cbv zeta.
  apply (streaming_cases buffer_size fft_size plan rxcfg txcfg e
           (fun cycles k l w r =>
              (k <= result_cycles r)%nat /\
              exists tail : list iodev,
                (tail = [] \/ tail = [TX] \/ tail = [TX; RX]) /\
                transport_calls (result_trace r)
                = transport_calls (trace w) ++
                  concat (replicate (result_cycles r - k) [TX; RX]) ++
                  tail));
    clear cycles k l w.
  - intros cycles k l w _. cbn [result_cycles result_trace]. split; [lia|]. exists [].
    rewrite Nat.sub_diag. split; [tauto|].
    rewrite !transport_calls_app, transport_calls_releases.
    simpl. rewrite ?app_nil_r. reflexivity.
  - intros k l w _. cbn [result_cycles result_trace]. split; [lia|]. exists [].
    rewrite Nat.sub_diag. split; [tauto|].
    simpl. rewrite ?app_nil_r. reflexivity.
  - intros c rest k l w _ _. cbn [result_cycles result_trace]. split; [lia|]. exists [].
    rewrite Nat.sub_diag. split; [tauto|].
    rewrite !transport_calls_app, transport_calls_releases.
    simpl. rewrite ?app_nil_r. reflexivity.
  - intros c rest k l w _ _ _. cbn [result_cycles result_trace]. split; [lia|]. exists [TX].
    rewrite Nat.sub_diag. split; [tauto|].
    rewrite !transport_calls_app, transport_calls_releases.
    simpl. rewrite ?app_nil_r. reflexivity.
  - intros c rest k l w _ _ _ _. cbn [result_cycles result_trace]. split; [lia|]. exists [TX; RX].
    rewrite Nat.sub_diag. split; [tauto|].
    rewrite transport_calls_app. reflexivity.
  - intros c rest k l w r _ _ _ _ _ (Hk & tail & Htail & Hcalls).
    split; [lia|]. exists tail. split; [exact Htail|].
    rewrite Hcalls. simpl trace. rewrite transport_calls_app, <- app_assoc.
    f_equal.
    replace (result_cycles r - k)%nat with (S (result_cycles r - S k))
      by lia.
    reflexivity.
Qed.

End Transport.

Lemma setup_traces_quiet (tr : list event) :
  In tr [[Abort]; [Acquire Ctx; Abort]; refused_write_trace; no_rxbuf_trace;
         no_txbuf_trace] ->
  pushed tr = [] /\ transport_calls tr = [].
Proof.
  simpl. intros [<-|[<-|[<-|[<-|[<-|[]]]]]]; split; reflexivity.
Qed.

(** X14.  The block handed to the transport by the first push is the TX
    buffer as it was created, which [main] has not written; every later
    push hands over the block synthesized at the end of the iteration
    before, which is the same block each time; the block synthesized by the
    last iteration is never pushed.  There is one push per completed
    iteration, and one more when the run ends between a push and the end of
    its iteration. *)
Theorem pushed_blocks (e : init_env) (cycles : list cycle_env) :
  exists m : nat,
    (result_cycles (main e cycles) <= m
     <= S (result_cycles (main e cycles)))%nat /\
    pushed (result_trace (main e cycles))
    = take m (map (tx_initial e) (seq 0 buffer_size) ::
              replicate (result_cycles (main e cycles)) synth_block).
Proof.
  destruct (main_outcomes e cycles)
    as [(tr & -> & Hin & _)|[(tr & -> & Hin)|[-> _]]].
  - exists 0%nat. cbn [result_cycles result_trace]. split; [lia|].
    rewrite take_0. apply (setup_traces_quiet tr). simpl in *. tauto.
  - exists 0%nat. cbn [result_cycles result_trace]. split; [lia|].
    rewrite take_0. apply (setup_traces_quiet tr). simpl in *. tauto.
  - destruct (reachable_lengths e (locals0 e) (reach_init e))
      as (_ & _ & Hlen).
    destruct (run_pushed e cycles 0 (locals0 e)
                (world_ready (sigint_in_init e) ready_trace) Hlen)
      as (_ & m & Hm & Hpushed).
    rewrite Nat.sub_0_r in Hm, Hpushed.
    exists m. split; [exact Hm|]. rewrite Hpushed. reflexivity.
Qed.

(** X15.  Along every run of [main] the calls into the transport
    alternate, a push first: a push and then a refill for each completed
    iteration, followed by nothing, by a push alone (the refill that
    followed it failed or the push itself was the last call), or by a push
    and a refill (the iteration then died on a zero sample width).  Two
    pushes or two refills never follow each other. *)
Theorem transport_calls_alternate (e : init_env) (cycles : list cycle_env) :
  exists tail : list iodev,
    (tail = [] \/ tail = [TX] \/ tail = [TX; RX]) /\
    transport_calls (result_trace (main e cycles))
    = concat (replicate (result_cycles (main e cycles)) [TX; RX]) ++ tail.
Proof.
  destruct (main_outcomes e cycles)
    as [(tr & -> & Hin & _)|[(tr & -> & Hin)|[-> _]]].
  - exists []. split; [tauto|]. cbn [result_cycles result_trace].
    apply (setup_traces_quiet tr). simpl in *. tauto.
  - exists []. split; [tauto|]. cbn [result_cycles result_trace].
    apply (setup_traces_quiet tr). simpl in *. tauto.
  - destruct (run_transport_calls e cycles 0 (locals0 e)
                (world_ready (sigint_in_init e) ready_trace))
      as (_ & tail & Htail & Hcalls).
    rewrite Nat.sub_0_r in Hcalls.
    exists tail. split; [exact Htail|]. rewrite Hcalls. reflexivity.
Qed.

(** ** A transfer that fails *)

Lemma loop_events_release_only_fft_csv (e : init_env)
    (cycles : list cycle_env) (l : locals) (h : handle) :
  released h (loop_events e cycles l) = true -> h = FileH FftCsv.
Proof.
  revert l. induction cycles as [|c cycles IH]; intros l; [discriminate|].
  cbn [loop_events]. rewrite released_app. intros Hrel.
  apply orb_prop in Hrel. destruct Hrel as [Hrel|Hrel]; [|exact (IH _ Hrel)].
  destruct h as [|[] []|[]| | | | |[]]; try discriminate Hrel. reflexivity.
Qed.

(** X16.  After iterations that went well, a push that fails ends the
    run at once: nothing more is pushed or refilled, no further iteration
    is counted, [shutdown] releases the transport and the process exits with
    status 0.  A refill that fails does the same after the pending block has
    been pushed.  On both paths the output files are not closed and the plan
    and the arrays of the transform are not freed before the exit. *)
Theorem failed_transfer_ends_run (e : init_env) (pre : list cycle_env)
    (c : cycle_env) (post : list cycle_env) :
  init_ok e = true ->
  rx_sample_size e <> 0 -> tx_sample_size e <> 0 ->
  forallb (fun c => transport_ok c && quiet c) pre = true ->
  (push_ret c < 0 ->
   main e (pre ++ c :: post)
   = Halted (length pre)
       (ready_trace ++ loop_events e pre (locals0 e) ++
        map Release transport_handles ++ [Exit 0])) /\
  (0 <= push_ret c -> refill_ret c < 0 ->
   main e (pre ++ c :: post)
   = Halted (length pre)
       (ready_trace ++ loop_events e pre (locals0 e) ++
        Push (txdata (loop_locals e pre (locals0 e))) ::
        map Release transport_handles ++ [Exit 0])) /\
  (forall h : handle,
     In h [Plan; FftIn; FftOut; FileH OutputCsv; FileH InputCsv] ->
     forall extra : list event,
       (extra = [] \/
        extra = [Push (txdata (loop_locals e pre (locals0 e)))]) ->
       released h (ready_trace ++ loop_events e pre (locals0 e) ++
                   extra ++ map Release transport_handles ++ [Exit 0])
       = false).
Proof.
  intros Hinit Hrx Htx Hpre.
  unfold main. rewrite (init_ok_run e Hinit).
  rewrite (run_quiet_prefix e Hrx Htx pre (c :: post) 0 (locals0 e)
             ready_trace Hpre).
  cbn [streaming stop world_ready]. rewrite cycle_run.
  cbn [trace world_ready]. rewrite Nat.add_0_l.
  split; [|split].
  - intros Hp. apply Z.ltb_lt in Hp. rewrite Hp.
    rewrite <- app_assoc. reflexivity.
  - intros Hp Hr. apply Z.ltb_ge in Hp. apply Z.ltb_lt in Hr.
    rewrite Hp, Hr. rewrite <- !app_assoc. reflexivity.
  - intros h Hh extra Hextra.
    apply not_true_iff_false. intros Hrel.
    rewrite !released_app in Hrel.
    apply orb_prop in Hrel. destruct Hrel as [Hrel|Hrel].
    { simpl in Hh.
      destruct Hh as [<-|[<-|[<-|[<-|[<-|[]]]]]]; discriminate Hrel. }
    apply orb_prop in Hrel. destruct Hrel as [Hrel|Hrel].
    { apply loop_events_release_only_fft_csv in Hrel. subst h.
      simpl in Hh. intuition discriminate. }
    apply orb_prop in Hrel. destruct Hrel as [Hrel|Hrel].
    { destruct Hextra as [->| ->]; discriminate Hrel. }
    simpl in Hh.
    destruct Hh as [<-|[<-|[<-|[<-|[<-|[]]]]]]; discriminate Hrel.
Qed.

Lemma failed_transfer_ends_run_witness :
  init_ok env_ok = true /\
  rx_sample_size env_ok <> 0 /\ tx_sample_size env_ok <> 0 /\
  forallb (fun c => transport_ok c && quiet c) [cycle_ok] = true /\
  push_ret cycle_push_error < 0 /\
  main env_ok ([cycle_ok] ++ cycle_push_error :: [cycle_ok])
  = Halted 1
      (ready_trace ++ loop_events env_ok [cycle_ok] (locals0 env_ok) ++
       map Release transport_handles ++ [Exit 0]).
Proof.
  split; [reflexivity|]. split; [discriminate|]. split; [discriminate|].
  split; [reflexivity|]. split; [reflexivity|].
  apply (proj1 (failed_transfer_ends_run env_ok [cycle_ok] cycle_push_error
                  [cycle_ok] eq_refl ltac:(discriminate)
                  ltac:(discriminate) eq_refl)).
  reflexivity.
Defined.

(** ** Channel names *)

Section Names.

Lemma string_length_append (a b : string) :
  String.length (String.append a b)
  = (String.length a + String.length b)%nat.
Proof. induction a as [|c a IH]; simpl; [reflexivity | rewrite IH; reflexivity]. Qed.

Lemma substring_0_length (m : nat) (s : string) :
  String.length (substring 0 m s) = Nat.min m (String.length s).
Proof.
  revert s. induction m as [|m IH]; intros s.
  - destruct s; reflexivity.
  - destruct s as [|c s]; simpl; [reflexivity | rewrite IH; reflexivity].
Qed.

Lemma substring_0_all (m : nat) (s : string) :
  (String.length s <= m)%nat -> substring 0 m s = s.
Proof.
  revert s. induction m as [|m IH]; intros s Hlen.
  - destruct s; [reflexivity | simpl in Hlen; lia].
  - destruct s as [|c s]; simpl; [reflexivity|].
    rewrite IH by (simpl in Hlen; lia). reflexivity.
Qed.

Lemma substring_0_prefix (m : nat) (s : string) :
  String.prefix (substring 0 m s) s = true.
Proof.
  revert s. induction m as [|m IH]; intros s.
  - destruct s; reflexivity.
  - destruct s as [|c s]; simpl; [reflexivity|].
    destruct (ascii_dec c c) as [_|Hne]; [apply IH | contradiction].
Qed.

Lemma append_inj_r (t a b : string) :
  String.append t a = String.append t b -> a = b.
Proof.
  induction t as [|c t IH]; simpl; [trivial|].
  intros [= H]. exact (IH H).
Qed.

Lemma to_int_nonnil (z : Z) :
  Z.to_int z <> Decimal.Pos Decimal.Nil /\
  Z.to_int z <> Decimal.Neg Decimal.Nil.
Proof.
  destruct z as [|p|p]; simpl; split; try discriminate;
    intros [= H]; exact (Unsigned.to_uint_nonnil p H).
Qed.

Lemma decimal_inj (a b : Z) : decimal a = decimal b -> a = b.
Proof.
  unfold decimal. intros H.
  apply (f_equal NilZero.int_of_string) in H.
  destruct (to_int_nonnil a) as [Ha1 Ha2].
  destruct (to_int_nonnil b) as [Hb1 Hb2].
  rewrite !NilZero.isi in H by assumption.
  injection H as H. apply (f_equal Z.of_int) in H.
  rewrite !DecimalZ.of_to in H. exact H.
Qed.

Lemma decimal_digit (id : Z) :
  0 <= id <= 9 ->
  decimal id = String (ascii_of_nat (48 + Z.to_nat id)) EmptyString.
Proof.
  intros Hid.
  assert (Hcases : id = 0 \/ id = 1 \/ id = 2 \/ id = 3 \/ id = 4 \/
                   id = 5 \/ id = 6 \/ id = 7 \/ id = 8 \/ id = 9) by lia.
  repeat (destruct Hcases as [->|Hcases]; [reflexivity|]).
  subst id. reflexivity.
Qed.

End Names.

(** X17.  [get_ch_name] gives [type] followed by [id] in decimal, cut to
    the 63 characters that fit [tmpstr]: its result is always a prefix of
    the full name and never longer than 63; it is the full name whenever
    that has at most 63 characters, in particular [type] followed by one
    digit for an [id] from 0 to 9 and a [type] of at most 62 characters. *)
Theorem get_ch_name_fits (type : string) (id : Z) :
  String.length (get_ch_name type id)
  = Nat.min 63 (String.length type + String.length (decimal id)) /\
  String.prefix (get_ch_name type id) (String.append type (decimal id))
  = true /\
  ((String.length type + String.length (decimal id) <= 63)%nat ->
   get_ch_name type id = String.append type (decimal id)) /\
  (0 <= id <= 9 -> (String.length type <= 62)%nat ->
   get_ch_name type id
   = String.append type
       (String (ascii_of_nat (48 + Z.to_nat id)) EmptyString)).
Proof.
  unfold get_ch_name.
  split; [rewrite substring_0_length, string_length_append; reflexivity|].
  split; [apply substring_0_prefix|].
  split.
  - intros Hfit. apply substring_0_all.
    rewrite string_length_append. exact Hfit.
  - intros Hid Hlen. rewrite (decimal_digit id Hid).
    apply substring_0_all. rewrite string_length_append. simpl. lia.
Qed.

(** X18.  As long as nothing is cut, two different channel numbers never
    give the same channel name. *)
Theorem get_ch_name_distinct (type : string) (a b : Z) :
  (String.length type + String.length (decimal a) <= 63)%nat ->
  (String.length type + String.length (decimal b) <= 63)%nat ->
  a <> b ->
  get_ch_name type a <> get_ch_name type b.
Proof.
  intros Ha Hb Hne Heq. unfold get_ch_name in Heq.
  rewrite !substring_0_all in Heq
    by (rewrite string_length_append; assumption).
  apply Hne, decimal_inj, (append_inj_r type), Heq.
Qed.

Lemma get_ch_name_distinct_witness :
  (String.length "voltage" + String.length (decimal 0) <= 63)%nat /\
  (String.length "voltage" + String.length (decimal 1) <= 63)%nat /\
  0 <> 1 /\
  get_ch_name "voltage" 0 <> get_ch_name "voltage" 1.
Proof.
  split; [simpl; lia|]. split; [simpl; lia|]. split; [lia|].
  apply (get_ch_name_distinct "voltage" 0 1); [simpl; lia | simpl; lia | lia].
Defined.

(** ** The configuration of one direction *)

(** X19.  [cfg_ad9361_streaming_ch] hands libiio its attribute writes in
    one fixed order, rf_port_select, rf_bandwidth and sampling_frequency
    on "voltage<chid>" of the phy, then frequency on the LO channel, and
    never any other: what it has written when it ends is always a prefix of
    that list.  It returns true after all four; it returns false without
    any write when the phy channel is missing, and with the first three
    already written when the LO channel is missing; it aborts without any
    write when the phy is missing; and it ends in [shutdown] right after
    the first refused write, the writes before it having been accepted and
    not being undone. *)
Theorem cfg_writes_in_order (dev : device_env) (cfg : stream_cfg)
    (type : iodev) (chid : Z) :
  let all := cfg_writes cfg type chid in
  let r := cfg_ad9361_streaming_ch_named dev cfg type chid in
  cfg_writes_of r = take (length (cfg_writes_of r)) all /\
  match r with
  | CfgRet true ws => ws = all /\ Forall (accepted dev) all
  | CfgRet false ws =>
      (ws = [] /\ has_channel dev (phy_chan type chid) = false) \/
      (ws = take 3 all /\ has_channel dev (lo_chan type) = false /\
       Forall (accepted dev) ws)
  | CfgAbort ws => ws = [] /\ has_device dev "ad9361-phy" = false
  | CfgShutdown ws =>
      exists (i : nat) (w : attr_write),
        ws = take (S i) all /\ all !! i = Some w /\
        attr_write_ret dev (w_chn w) (w_attr w) (w_val w) < 0 /\
        Forall (accepted dev) (take i all)
  end.
Proof.
  cbv zeta. unfold cfg_ad9361_streaming_ch_named, wr_ch_named, cfg_writes,
    accepted.
  destruct (has_device dev "ad9361-phy") eqn:Hdev; cbn [negb];
    [|split; [reflexivity | split; reflexivity]].
  destruct (has_channel dev (phy_chan type chid)) eqn:Hphy; cbn [negb];
    [|split; [reflexivity | left; split; reflexivity]].
  destruct (Z.ltb_spec
              (attr_write_ret dev (phy_chan type chid) "rf_port_select"
                              (AttrStr (rfport cfg))) 0) as [H1|H1].
  { split; [reflexivity|]. exists 0%nat. eexists.
    split; [reflexivity|]. split; [reflexivity|].
    split; [exact H1 | constructor]. }
  destruct (Z.ltb_spec
              (attr_write_ret dev (phy_chan type chid) "rf_bandwidth"
                              (AttrLL (bw_hz cfg))) 0) as [H2|H2].
  { split; [reflexivity|]. exists 1%nat. eexists.
    split; [reflexivity|]. split; [reflexivity|].
    split; [exact H2 | repeat constructor; exact H1]. }
  destruct (Z.ltb_spec
              (attr_write_ret dev (phy_chan type chid) "sampling_frequency"
                              (AttrLL (fs_hz cfg))) 0) as [H3|H3].
  { split; [reflexivity|]. exists 2%nat. eexists.
    split; [reflexivity|]. split; [reflexivity|].
    split; [exact H3 | repeat constructor; assumption]. }
  destruct (has_channel dev (lo_chan type)) eqn:Hlo; cbn [negb].
  2:{ split; [reflexivity|]. right.
      split; [reflexivity|]. split; [reflexivity|].
      repeat constructor; assumption. }
  destruct (Z.ltb_spec
              (attr_write_ret dev (lo_chan type) "frequency"
                              (AttrLL (lo_hz cfg))) 0) as [H4|H4].
  { split; [reflexivity|]. exists 3%nat. eexists.
    split; [reflexivity|]. split; [reflexivity|].
    split; [exact H4 | repeat constructor; assumption]. }
  split; [reflexivity|]. split; [reflexivity|].
  repeat constructor; assumption.
Qed.

(** X21.  [get_ad9361_stream_ch] looks for "voltage<chid>" and falls back
    on "altvoltage<chid>" only when the first is missing; the channel it
    finds is on the device asked for and has the direction of the stream,
    an output for TX and an input for RX; and what [main] reads off its
    oracle, a pointer that is set or NULL, is whether the named look-ups
    found a channel. *)
Theorem stream_channel_fallback (dev : device_env) (d : iodev)
    (devname : string) (chid : Z) (q : bool) (w : world) :
  let voltage := {| chn_dev := devname;
                    chn_name := get_ch_name "voltage" chid;
                    chn_output := match d with TX => true | RX => false end |} in
  let altvoltage := {| chn_dev := devname;
                       chn_name := get_ch_name "altvoltage" chid;
                       chn_output := match d with TX => true | RX => false end |} in
  let found := get_ad9361_stream_ch_named dev d devname chid in
  (has_channel dev voltage = true -> found = Some voltage) /\
  (has_channel dev voltage = false -> has_channel dev altvoltage = true ->
   found = Some altvoltage) /\
  (has_channel dev voltage = false -> has_channel dev altvoltage = false ->
   found = None) /\
  (forall c : iio_channel, found = Some c ->
     has_channel dev c = true /\ chn_dev c = devname /\
     chn_output c = match d with TX => true | RX => false end) /\
  get_ad9361_stream_ch d q
    {| by_voltage := has_channel dev voltage;
       by_altvoltage := has_channel dev altvoltage |} w
  = Ret (bool_decide (is_Some found))
        (with_chan d q (bool_decide (is_Some found)) w).
Proof.
  cbv zeta. unfold get_ad9361_stream_ch_named, get_ad9361_stream_ch, bind,
    update, ret.
  cbn [by_voltage by_altvoltage].
  destruct (has_channel dev _) eqn:Hv at 1.
  all: rewrite ?Hv.
  - split; [reflexivity|]. split; [discriminate|]. split; [discriminate|].
    split; [|reflexivity].
    intros c [= <-]. split; [exact Hv | split; reflexivity].
  - destruct (has_channel dev
                {| chn_dev := devname;
                   chn_name := get_ch_name "altvoltage" chid;
                   chn_output := match d with TX => true | RX => false end |})
      eqn:Ha.
    + split; [discriminate|]. split; [reflexivity|]. split; [discriminate|].
      split; [|reflexivity].
      intros c [= <-]. split; [exact Ha | split; reflexivity].
    + split; [discriminate|]. split; [discriminate|]. split; [reflexivity|].
      split; [intros c [=] | reflexivity].
Qed.
